(** * prow/pjutil/filter.go: presubmit filters and the trigger/skip partition

  A shallow embedding of the Go package [pjutil] (file
  [prow/pjutil/filter.go]) and proofs about its four functions
  [CommandFilter], [TestAllFilter], [AggregateFilter] and
  [FilterPresubmits], and about its pattern [TestAllRe].

  Conventions of the embedding:
  - a Go slice is a [list]; the [nil] slice and the empty slice are both
    [[]] (they are indistinguishable by [len] and [range]);
  - a Go [error] value is an [option]: [None] is the [nil] error;
  - [logrus.Fields], a [map[string]interface{}], is a [gmap] from
    strings to the name lists the function stores in it;
  - the calls that leave the package ([Presubmit.ShouldRun] and the
    [Debugf] of the logger) are recorded, in program order, in a trace
    of events carried by a writer monad;
  - [FilterPresubmits] is the function on a logger that logs;
    [callFilterPresubmits] is the call on any [*logrus.Entry], the nil
    pointer and entries without a [Logger] included, on which the log
    call panics. *)

From stdpp Require Import list strings gmap.

(** ** The imported packages *)

(** Package [k8s.io/test-infra/prow/config]: the methods of
  [config.Presubmit] that [filter.go] calls.  Their bodies are not part
  of the file under verification, so they are the operations of an
  interface.  [ShouldRun] returns the Go pair [(bool, error)]. *)
Module config.
Class PresubmitAPI (Presubmit ChangedFilesProvider error : Type) := {
  Name : Presubmit → string;
  TriggerMatches : Presubmit → string → bool;
  NeedsExplicitTrigger : Presubmit → bool;
  ShouldRun :
    Presubmit → string → ChangedFilesProvider → bool → bool →
    bool * option error
}.
End config.

(** Package [github.com/sirupsen/logrus]: [Fields] and the one pure
  method of [*logrus.Entry] used here.  [Debugf] has no result; it is an
  event of the trace below. *)
Module logrus.
Abbreviation Fields := (gmap string (list string)).

Class EntryAPI (Entry : Type) := {
  WithFields : Entry → Fields → Entry
}.

(** An entry logs through its [Logger] field.  The zero [Entry] has none,
    and [Debugf] on it dereferences a nil [*Logger]. *)
Class EntryLogger (Entry : Type) := {
  hasLogger : Entry → bool
}.
End logrus.

Export config logrus.

(** ** Calls leaving the package, and the monad that records them *)

Section events.
Context {Presubmit ChangedFilesProvider Entry : Type}.

Inductive Event :=
| ShouldRunCall (presubmit : Presubmit) (branch : string)
    (changes : ChangedFilesProvider) (forced defaults : bool)
| DebugfCall (logger : Entry) (format : string) (args : list nat).

(** The job whose [ShouldRun] an event calls, if it is such a call. *)
Definition called_on (ev : Event) : option Presubmit :=
  match ev with
  | ShouldRunCall p _ _ _ _ => Some p
  | DebugfCall _ _ _ => None
  end.

(** The receiver and arguments of a [ShouldRun] call; nothing for the
    logger's events. *)
Definition shouldRunArgs (ev : Event)
  : option (Presubmit * string * ChangedFilesProvider * bool * bool) :=
  match ev with
  | ShouldRunCall p branch changes forced defaults =>
      Some (p, branch, changes, forced, defaults)
  | DebugfCall _ _ _ => None
  end.

(** A computation returns its value and the events it produced. *)
Definition Eff (A : Type) : Type := A * list Event.

#[export] Instance Eff_ret : MRet Eff := λ A a, (a, []).

#[export] Instance Eff_bind : MBind Eff := λ A B k m,
  let '(a, t1) := m in
  let '(b, t2) := k a in
  (b, t1 ++ t2).

Definition emit (ev : Event) : Eff unit := (tt, [ev]).

Definition result {A} (m : Eff A) : A := m.1.
Definition trace {A} (m : Eff A) : list Event := m.2.
End events.

Arguments Event : clear implicits.
Arguments Eff : clear implicits.

(** ** Package [pjutil] *)

Section pjutil.
Context {Presubmit ChangedFilesProvider error Entry : Type}.
Context `{!PresubmitAPI Presubmit ChangedFilesProvider error}.
Context `{!EntryAPI Entry}.

Local Abbreviation Ev := (Event Presubmit ChangedFilesProvider Entry).
Local Abbreviation M := (Eff Presubmit ChangedFilesProvider Entry).

(** [type Filter func(p config.Presubmit)
      (shouldRun bool, forcedToRun bool, defaultBehavior bool)] *)
Definition Filter : Type := Presubmit → bool * bool * bool.

(** The three named results of a filter. *)
Definition matches (d : bool * bool * bool) : bool := d.1.1.
Definition forcedToRun (d : bool * bool * bool) : bool := d.1.2.
Definition defaultBehavior (d : bool * bool * bool) : bool := d.2.

(** [func CommandFilter(body string) Filter] *)
Definition CommandFilter (body : string) : Filter :=
  λ p, (TriggerMatches p body, TriggerMatches p body, true).

(** [func TestAllFilter() Filter] *)
Definition TestAllFilter : Filter :=
  λ p, (negb (NeedsExplicitTrigger p), false, false).

(** [func AggregateFilter(filters []Filter) Filter]: the [range] loop
    over [filters], returning from inside the loop at the first child
    whose first result is true. *)
Fixpoint AggregateFilter (filters : list Filter) : Filter :=
  λ presubmit,
    match filters with
    | [] => (false, false, false)
    | filter :: filters' =>
        let '(shouldRun, forced, defaults) := filter presubmit in
        if shouldRun then (shouldRun, forced, defaults)
        else AggregateFilter filters' presubmit
    end.

(** The four local slices of [FilterPresubmits]. *)
Record locals := Locals {
  toTrigger : list Presubmit;
  namesToTrigger : list string;
  toSkip : list Presubmit;
  namesToSkip : list string
}.

(** [presubmit.ShouldRun(branch, changes, forced, defaults)], recorded. *)
Definition callShouldRun (presubmit : Presubmit) (branch : string)
    (changes : ChangedFilesProvider) (forced defaults : bool)
  : M (bool * option error) :=
  emit (ShouldRunCall presubmit branch changes forced defaults) ;;
  mret (ShouldRun presubmit branch changes forced defaults).

(** [logger.Debugf(format, args...)], recorded. *)
Definition Debugf (logger : Entry) (format : string) (args : list nat)
  : M unit :=
  emit (DebugfCall logger format args).

(** The loop [for _, presubmit := range presubmits { ... }] of
    [FilterPresubmits].  [inr err] is the [return nil, nil, err] taken
    inside the loop; [inl vars] is the normal exit with the final value
    of the local slices. *)
Fixpoint rangePresubmits (filter : Filter) (changes : ChangedFilesProvider)
    (branch : string) (presubmits : list Presubmit) (vars : locals)
  : M (locals + error) :=
  match presubmits with
  | [] => mret (inl vars)
  | presubmit :: rest =>
      let '(matches, forced, defaults) := filter presubmit in
      if negb matches then
        rangePresubmits filter changes branch rest vars
      else
        '(shouldRun, err) ← callShouldRun presubmit branch changes forced defaults;
         match err with
         | Some e => mret (inr e)
         | None =>
             if (shouldRun : bool) then
               rangePresubmits filter changes branch rest
                 {| toTrigger := toTrigger vars ++ [presubmit];
                    namesToTrigger := namesToTrigger vars ++ [Name presubmit];
                    toSkip := toSkip vars;
                    namesToSkip := namesToSkip vars |}
             else
               rangePresubmits filter changes branch rest
                 {| toTrigger := toTrigger vars;
                    namesToTrigger := namesToTrigger vars;
                    toSkip := toSkip vars ++ [presubmit];
                    namesToSkip := namesToSkip vars ++ [Name presubmit] |}
         end
  end.

(** [func FilterPresubmits(filter Filter, changes config.ChangedFilesProvider,
      branch string, presubmits []config.Presubmit, logger *logrus.Entry)
      ([]config.Presubmit, []config.Presubmit, error)] *)
Definition FilterPresubmits (filter : Filter) (changes : ChangedFilesProvider)
    (branch : string) (presubmits : list Presubmit) (logger : Entry)
  : M (list Presubmit * list Presubmit * option error) :=
  r ← rangePresubmits filter changes branch presubmits
        {| toTrigger := []; namesToTrigger := [];
           toSkip := []; namesToSkip := [] |};
  match r with
  | inr err => mret ([], [], Some err)
  | inl vars =>
      Debugf
        (WithFields logger
           (<["to-trigger" := namesToTrigger vars]>
              (<["to-skip" := namesToSkip vars]> ∅)))
        "Filtered %d jobs, found %d to trigger and %d to skip."
        [length presubmits; length (toTrigger vars); length (toSkip vars)] ;;
      mret (toTrigger vars, toSkip vars, None)
  end.
End pjutil.

Arguments Filter : clear implicits.
Arguments locals : clear implicits.

(** ** [FilterPresubmits] on any value of [logger]

    The parameter [logger] is a [*logrus.Entry], which a caller may also
    pass as nil or as a pointer to an entry without a [Logger].  The one
    use of it, on the last line but one of the function, then panics
    instead of logging.  [FilterPresubmits] above is the function on a
    logger that logs; [callFilterPresubmits] is the call for every value
    of the pointer, [None] being nil. *)

(** How a Go call ends. *)
Inductive outcome (A : Type) :=
| Returns (a : A)
| Panics.

Arguments Returns {A} a.
Arguments Panics {A}.

Section pjutil_call.
Context {Presubmit ChangedFilesProvider error Entry : Type}.
Context `{!PresubmitAPI Presubmit ChangedFilesProvider error}.
Context `{!EntryAPI Entry} `{!EntryLogger Entry}.

(** The call [logger.WithFields(...).Debugf(...)] returns. *)
Definition logs (logger : option Entry) : bool :=
  match logger with
  | Some entry => hasLogger entry
  | None => false
  end.

Definition callFilterPresubmits (filter : Filter Presubmit)
    (changes : ChangedFilesProvider) (branch : string)
    (presubmits : list Presubmit) (logger : option Entry)
  : Eff Presubmit ChangedFilesProvider Entry
      (outcome (list Presubmit * list Presubmit * option error)) :=
  r ← rangePresubmits filter changes branch presubmits
        {| toTrigger := []; namesToTrigger := [];
           toSkip := []; namesToSkip := [] |};
  match r with
  | inr err => mret (Returns ([], [], Some err))
  | inl vars =>
      match logger with
      | None => mret Panics
      | Some entry =>
          if hasLogger entry then
            Debugf
              (WithFields entry
                 (<["to-trigger" := namesToTrigger vars]>
                    (<["to-skip" := namesToSkip vars]> ∅)))
              "Filtered %d jobs, found %d to trigger and %d to skip."
              [length presubmits; length (toTrigger vars); length (toSkip vars)] ;;
            mret (Returns (toTrigger vars, toSkip vars, None))
          else mret Panics
      end
  end.
End pjutil_call.

(** ** Vocabulary of the specification

    The words the statements about [FilterPresubmits] are written in, for
    a fixed filter, change provider and branch. *)

Section vocabulary.
Context {Presubmit ChangedFilesProvider error Entry : Type}.
Context `{!PresubmitAPI Presubmit ChangedFilesProvider error}.
Variable filter : Filter Presubmit.
Variable changes : ChangedFilesProvider.
Variable branch : string.

(** The filter matches the job. *)
Definition matched (p : Presubmit) : bool := matches (filter p).

(** What the job's [ShouldRun] answers on the flags the filter gives. *)
Definition runCondition (p : Presubmit) : bool * option error :=
  ShouldRun p branch changes (forcedToRun (filter p)) (defaultBehavior (filter p)).

(** Matched, and the run condition says true (resp. false). *)
Definition triggers (p : Presubmit) : bool := matched p && (runCondition p).1.
Definition skips (p : Presubmit) : bool := matched p && negb (runCondition p).1.

(** Matched, and the run condition reports an error. *)
Definition fails (p : Presubmit) : bool :=
  matched p && match (runCondition p).2 with Some _ => true | None => false end.

(** The call of [ShouldRun] that [FilterPresubmits] makes for a job. *)
Definition callOf (p : Presubmit) : Event Presubmit ChangedFilesProvider Entry :=
  ShouldRunCall p branch changes (forcedToRun (filter p)) (defaultBehavior (filter p)).

(** The two outputs are a stable two-way partition of exactly the matched
    jobs of the input. *)
Record StablePartition (presubmits toTrigger toSkip : list Presubmit) : Prop := {
  (* the jobs that trigger, each at its place among them in the input *)
  partition_trigger : toTrigger = base.filter (λ p, triggers p = true) presubmits;
  (* the jobs that are skipped, likewise *)
  partition_skip : toSkip = base.filter (λ p, skips p = true) presubmits;
  (* both keep the relative order of the input *)
  partition_trigger_order : toTrigger `sublist_of` presubmits;
  partition_skip_order : toSkip `sublist_of` presubmits;
  (* no job is in both *)
  partition_disjoint : ∀ p, p ∈ toTrigger → p ∈ toSkip → False;
  (* together they are the matched jobs, each as often as in the input *)
  partition_exact :
    toTrigger ++ toSkip ≡ₚ base.filter (λ p, matched p = true) presubmits
}.

(** The local slices after the loop has gone through [pre] without an
    error. *)
Definition advance (vars : locals Presubmit) (pre : list Presubmit)
  : locals Presubmit :=
  {| toTrigger := toTrigger vars ++ base.filter (λ p, triggers p = true) pre;
     namesToTrigger :=
       namesToTrigger vars ++ (Name <$> base.filter (λ p, triggers p = true) pre);
     toSkip := toSkip vars ++ base.filter (λ p, skips p = true) pre;
     namesToSkip :=
       namesToSkip vars ++ (Name <$> base.filter (λ p, skips p = true) pre) |}.
End vocabulary.

(** ** A test fixture

  A small stand-in for [config.Presubmit], in the manner of the fakes of
  a Go test: a job has a name, the one comment body that triggers it, an
  explicit-trigger flag, an always-run flag and the outcome of its
  changed-files matcher, which may be undetermined ([None]), determined,
  or an error.  It serves the concrete examples below; the theorems hold
  for every implementation of the interface. *)
Module fixture.
Record job := Job {
  job_name : string;
  job_trigger : string;
  job_explicit : bool;
  job_always_run : bool;
  job_changes : option (bool + string)
}.

#[export] Instance job_api : PresubmitAPI job unit string := {|
  Name := job_name;
  TriggerMatches j body := bool_decide (body = job_trigger j);
  NeedsExplicitTrigger := job_explicit;
  ShouldRun j _ _ forced defaults :=
    if job_always_run j then (true, None)
    else if forced then (true, None)
    else match job_changes j with
         | Some (inl determined) => (determined, None)
         | Some (inr e) => (false, Some e)
         | None => (defaults, None)
         end
|}.

(** An entry is the fields it carries; new fields take precedence. *)
#[export] Instance entry_api : EntryAPI Fields := {|
  WithFields entry fields := fields ∪ entry
|}.

(** Entries as a caller may build them: with a [Logger] or, like the zero
    [Entry], without. *)
Record entry := MkEntry {
  entry_logger : bool;
  entry_data : Fields
}.

#[export] Instance entry_with_logger_api : EntryAPI entry := {|
  WithFields e fields := MkEntry (entry_logger e) (fields ∪ entry_data e)
|}.

#[export] Instance entry_logger_api : EntryLogger entry := {|
  hasLogger := entry_logger
|}.

Definition stdEntry : entry := MkEntry true ∅.
Definition zeroEntry : entry := MkEntry false ∅.

Definition foo : job := Job "foo" "/test foo" false false None.
Definition bar : job := Job "bar" "/test bar" true false None.
Definition unit_tests : job := Job "unit" "/test unit" false true None.
Definition docs : job := Job "docs" "/test docs" false false (Some (inl false)).
Definition broken : job :=
  Job "broken" "/test broken" false false (Some (inr "bad run_if_changed")).
End fixture.

(** ** The "/test all" pattern

    [filter.go] also declares
    [var TestAllRe = regexp.MustCompile(...)] on the pattern
    [(?m)^/test all,?($|\s.* )] (here with a space before its last
    parenthesis, which the source does not have), which callers use as [TestAllRe.MatchString(body)].  Package [regexp]
    is Go's; what follows is its matching for the operators this pattern
    is made of, on byte strings: under the flag [m], [^] holds at the
    start of the text and after a newline, [$] at the end of the text and
    before a newline; [\s] is the class of tab, newline, form feed,
    carriage return and space; [.] is any character but newline.  A
    capture group does not change whether a text matches and is left
    out. *)
Module regexp.
Inductive Regexp :=
| Literal (lit : string)
| CharClass (members : list Ascii.ascii)
| AnyCharNotNL
| BeginLine
| EndLine
| Concat (r1 r2 : Regexp)
| Alternate (r1 r2 : Regexp)
| Quest (r : Regexp)
| Star (r : Regexp).

Definition newline : Ascii.ascii := Ascii.ascii_of_nat 10.

(** The members of [\s]: [\t], [\n], [\f], [\r] and the space, by
    their byte values. *)
Definition whitespace : list Ascii.ascii :=
  Ascii.ascii_of_nat <$> [9; 10; 12; 13; 32].

(** A place in the text: the character before it, if any, and the text
    from there on. *)
Definition place : Type := option Ascii.ascii * string.

(** The text left when [lit] is taken off the front of [s]. *)
Fixpoint strip_prefix (lit s : string) : option string :=
  match lit with
  | EmptyString => Some s
  | String c lit' =>
      match s with
      | EmptyString => None
      | String d s' => if Ascii.eqb c d then strip_prefix lit' s' else None
      end
  end.

(** The character before the place reached by reading [s]. *)
Fixpoint lastChar (prev : option Ascii.ascii) (s : string) : option Ascii.ascii :=
  match s with
  | EmptyString => prev
  | String c s' => lastChar (Some c) s'
  end.

(** Zero or more rounds of [step], each of which must consume text. *)
Fixpoint star (step : place → list place) (fuel : nat) (here : place)
  : list place :=
  here ::
  match fuel with
  | 0 => []
  | S fuel' =>
      there ← base.filter
                (λ there, String.length there.2 < String.length here.2)
                (step here);
      star step fuel' there
  end.

(** The places where a match of [r] that starts at [here] can end. *)
Fixpoint ends (r : Regexp) (here : place) : list place :=
  match r with
  | Literal lit =>
      match strip_prefix lit here.2 with
      | Some s' => [(lastChar here.1 lit, s')]
      | None => []
      end
  | CharClass members =>
      match here.2 with
      | String c s' => if bool_decide (c ∈ members) then [(Some c, s')] else []
      | EmptyString => []
      end
  | AnyCharNotNL =>
      match here.2 with
      | String c s' => if Ascii.eqb c newline then [] else [(Some c, s')]
      | EmptyString => []
      end
  | BeginLine =>
      match here.1 with
      | None => [here]
      | Some c => if Ascii.eqb c newline then [here] else []
      end
  | EndLine =>
      match here.2 with
      | EmptyString => [here]
      | String c _ => if Ascii.eqb c newline then [here] else []
      end
  | Concat r1 r2 => there ← ends r1 here; ends r2 there
  | Alternate r1 r2 => ends r1 here ++ ends r2 here
  | Quest r' => ends r' here ++ [here]
  | Star r' => star (ends r') (String.length here.2) here
  end.

(** Some match of [r] starts at [here]. *)
Definition matchesHere (r : Regexp) (here : place) : bool :=
  match ends r here with [] => false | _ :: _ => true end.

(** Some match of [r] starts at [here] or further on. *)
Fixpoint search (r : Regexp) (prev : option Ascii.ascii) (s : string) : bool :=
  matchesHere r (prev, s) ||
  match s with
  | EmptyString => false
  | String c s' => search r (Some c) s'
  end.

(** [func (re *Regexp) MatchString(s string) bool] *)
Definition MatchString (re : Regexp) (s : string) : bool := search re None s.
End regexp.

Export regexp.

(** [var TestAllRe]: the parse of the pattern, [^] then the literal then
    [,?] then the alternative of [$] and of [\s] followed by [.] starred. *)
Definition TestAllRe : Regexp :=
  Concat BeginLine
    (Concat (Literal "/test all")
       (Concat (Quest (Literal ","))
          (Alternate EndLine
             (Concat (CharClass whitespace) (Star AnyCharNotNL))))).

(** *** Vocabulary for the pattern *)

(** The text before a place ends a line, or is empty. *)
Definition lineStart (pre : string) : Prop :=
  pre = "" ∨ ∃ pre', pre = pre' +:+ String newline "".

(** The text after the command ends it: nothing is left, or white space
    follows. *)
Definition commandEnd (post : string) : Prop :=
  post = "" ∨ ∃ c post', post = String c post' ∧ c ∈ whitespace.

(** The same two as tests, and the test for what may follow
    ["/test all"]: an optional comma, then the end of the command. *)
Definition lineStartb (prev : option Ascii.ascii) : bool :=
  match prev with
  | None => true
  | Some c => Ascii.eqb c newline
  end.

Definition commandEndb (post : string) : bool :=
  match post with
  | EmptyString => true
  | String c _ => bool_decide (c ∈ whitespace)
  end.

Definition tailOkb (post : string) : bool :=
  match strip_prefix "," post with
  | Some post' => commandEndb post'
  | None => false
  end || commandEndb post.

(** ** The filter constructors *)

Section filters.
Context {Presubmit ChangedFilesProvider error : Type}.
Context `{!PresubmitAPI Presubmit ChangedFilesProvider error}.

Implicit Types (j : Presubmit) (body : string).
Implicit Types (filters : list (Filter Presubmit)).

Lemma AggregateFilter_cons_match (f : Filter Presubmit) filters j :
  matches (f j) = true → AggregateFilter (f :: filters) j = f j.
Proof.
  unfold matches. simpl. destruct (f j) as [[m fo] d]; simpl.
  by intros ->.
Qed.

Lemma AggregateFilter_cons_no_match (f : Filter Presubmit) filters j :
  matches (f j) = false →
  AggregateFilter (f :: filters) j = AggregateFilter filters j.
Proof.
  unfold matches. simpl. destruct (f j) as [[m fo] d]; simpl.
  by intros ->.
Qed.

Lemma AggregateFilter_skip_prefix (pre filters : list (Filter Presubmit)) j :
  Forall (λ g, matches (g j) = false) pre →
  AggregateFilter (pre ++ filters) j = AggregateFilter filters j.
Proof.
  induction 1 as [|g pre Hg _ IH]; [done|].
  rewrite <- app_comm_cons.
  by rewrite AggregateFilter_cons_no_match.
Qed.

(** The children of an aggregate either all fail to match, or split
    around a first matching child. *)
Lemma first_match_or_none filters j :
  Forall (λ g, matches (g j) = false) filters ∨
  ∃ pre f post,
    filters = pre ++ f :: post ∧
    Forall (λ g, matches (g j) = false) pre ∧
    matches (f j) = true.
Proof.
  induction filters as [|g filters IH]; [by left|].
  destruct (matches (g j)) eqn:Hg.
  - right. exists [], g, filters. by repeat split.
  - destruct IH as [Hnone|(pre & f & post & -> & Hpre & Hf)].
    + left. by constructor.
    + right. exists (g :: pre), f, post. repeat split; [|done].
      by constructor.
Qed.
(** *** Statements about the filters *)

(** C4: the first result of [CommandFilter body] on a job is
    [TriggerMatches body] of that job, and whenever it is true the second
    (forced) and third (default behaviour) results are true. *)
Theorem CommandFilter_matches body j :
  matches (CommandFilter body j) = TriggerMatches j body ∧
  (matches (CommandFilter body j) = true →
   forcedToRun (CommandFilter body j) = true ∧
   defaultBehavior (CommandFilter body j) = true).
Proof.
  unfold CommandFilter, matches, forcedToRun, defaultBehavior. simpl.
  by split.
Qed.

(** C9: the third result of [CommandFilter body] is the constant true,
    also on a job the body does not trigger. *)
Theorem CommandFilter_defaultBehavior body j :
  defaultBehavior (CommandFilter body j) = true ∧
  CommandFilter body j = (TriggerMatches j body, TriggerMatches j body, true).
Proof. by split. Qed.

(** C5: [TestAllFilter()] takes no comment body; on every job its first
    result is the negation of [NeedsExplicitTrigger], and its second and
    third results are false. *)
Theorem TestAllFilter_matches j :
  matches (TestAllFilter j) = negb (NeedsExplicitTrigger j) ∧
  forcedToRun (TestAllFilter j) = false ∧
  defaultBehavior (TestAllFilter j) = false.
Proof. by repeat split. Qed.

(** C7: the aggregate of no filters answers [(false, false, false)] on
    every job, so it matches none. *)
Theorem AggregateFilter_nil j :
  AggregateFilter [] j = (false, false, false) ∧
  matches (AggregateFilter [] j) = false.
Proof. by split. Qed.

(** C2: the aggregate answers what its first matching child answers,
    children taken in list order, and [(false, false, false)] when no
    child matches; for two children [F1] and [F2] it answers [F1 j] if
    [F1] matches, whatever [F2] says, else [F2 j] if [F2] matches, else
    [(false, false, false)]. *)
Theorem AggregateFilter_first_match filters j :
  ((∃ pre f post,
      filters = pre ++ f :: post ∧
      Forall (λ g, matches (g j) = false) pre ∧
      matches (f j) = true ∧
      AggregateFilter filters j = f j)
   ∨
   (Forall (λ g, matches (g j) = false) filters ∧
    AggregateFilter filters j = (false, false, false)))
  ∧
  ∀ F1 F2 : Filter Presubmit,
    AggregateFilter [F1; F2] j =
    if matches (F1 j) then F1 j
    else if matches (F2 j) then F2 j
    else (false, false, false).
Proof.
  split.
  - destruct (first_match_or_none filters j)
      as [Hnone|(pre & f & post & -> & Hpre & Hf)].
    + right. split; [done|].
      rewrite <- (app_nil_r filters).
      by rewrite AggregateFilter_skip_prefix.
    + left. exists pre, f, post. repeat split; [done..|].
      rewrite AggregateFilter_skip_prefix by done.
      by apply AggregateFilter_cons_match.
  - intros F1 F2. destruct (matches (F1 j)) eqn:H1.
    + by apply AggregateFilter_cons_match.
    + rewrite AggregateFilter_cons_no_match by done.
      destruct (matches (F2 j)) eqn:H2.
      * by apply AggregateFilter_cons_match.
      * by rewrite AggregateFilter_cons_no_match.
Qed.

(** C10: the aggregate matches a job exactly when one of its children
    does. *)
Theorem AggregateFilter_matches_iff filters j :
  matches (AggregateFilter filters j) = true ↔
  ∃ f, f ∈ filters ∧ matches (f j) = true.
Proof.
  induction filters as [|g filters IH].
  - split; [done|]. by intros (f & ?%elem_of_nil & _).
  - destruct (matches (g j)) eqn:Hg.
    + rewrite AggregateFilter_cons_match by done. split; [|done].
      intros _. exists g. split; [left|done].
    + rewrite AggregateFilter_cons_no_match by done. rewrite IH. split.
      * intros (f & Hin & Hf). exists f. split; [by right|done].
      * intros (f & [->|Hin]%elem_of_cons & Hf); [congruence|by exists f].
Qed.
End filters.

(** ** The loop of [FilterPresubmits] *)

(** Unfolding the vocabulary. *)
Ltac unfold_job :=
  unfold matched, runCondition, callOf, matches, forcedToRun, defaultBehavior.
Ltac unfold_partition := unfold triggers, skips.
Ltac unfold_fails := unfold fails.
Ltac unfold_advance := unfold advance; unfold_partition.
Ltac unfold_FilterPresubmits := unfold FilterPresubmits.

Section loop.
Context {Presubmit ChangedFilesProvider error Entry : Type}.
Context `{!PresubmitAPI Presubmit ChangedFilesProvider error}.
Context `{!EntryAPI Entry}.
Variable filter : Filter Presubmit.
Variable changes : ChangedFilesProvider.
Variable branch : string.

Local Abbreviation M := (Eff Presubmit ChangedFilesProvider Entry).
Local Abbreviation matched := (matched filter).
Local Abbreviation triggers := (triggers filter changes branch).
Local Abbreviation skips := (skips filter changes branch).
Local Abbreviation fails := (fails filter changes branch).
Local Abbreviation runCondition := (runCondition filter changes branch).
Local Abbreviation callOf := (@callOf _ _ Entry filter changes branch).
Local Abbreviation advance := (advance filter changes branch).
Local Abbreviation range := (@rangePresubmits _ _ error Entry _ filter changes branch).

Implicit Types (p : Presubmit) (vars : locals Presubmit).
Implicit Types (pre rest : list Presubmit).

Lemma advance_nil vars : advance vars [] = vars.
Proof. destruct vars. unfold advance. simpl. by rewrite !app_nil_r. Qed.

(** One iteration on a job the filter does not match. *)
Lemma range_unmatched p rest vars :
  matched p = false → range (p :: rest) vars = range rest vars.
Proof.
  unfold_job. simpl.
  destruct (filter p) as [[m fo] d]; simpl. by intros ->.
Qed.

(** One iteration on a matched job whose run condition is an error. *)
Lemma range_error p rest vars e :
  matched p = true → (runCondition p).2 = Some e →
  range (p :: rest) vars = (inr e, [callOf p]).
Proof.
  unfold_job. simpl.
  destruct (filter p) as [[m fo] d]; simpl. intros -> He. simpl.
  unfold callShouldRun, mbind, Eff_bind, mret, Eff_ret, emit. simpl.
  destruct (ShouldRun p branch changes fo d) as [b oe]; simpl in *.
  by subst oe.
Qed.

(** One iteration on a matched job whose run condition is evaluated. *)
Lemma range_evaluated p rest vars :
  matched p = true → (runCondition p).2 = None →
  range (p :: rest) vars =
  let vars' :=
    if (runCondition p).1 then
      {| toTrigger := toTrigger vars ++ [p];
         namesToTrigger := namesToTrigger vars ++ [Name p];
         toSkip := toSkip vars;
         namesToSkip := namesToSkip vars |}
    else
      {| toTrigger := toTrigger vars;
         namesToTrigger := namesToTrigger vars;
         toSkip := toSkip vars ++ [p];
         namesToSkip := namesToSkip vars ++ [Name p] |} in
  (result (range rest vars'), callOf p :: trace (range rest vars')).
Proof.
  unfold_job. simpl.
  destruct (filter p) as [[m fo] d]; simpl. intros -> He. simpl.
  unfold callShouldRun, mbind, Eff_bind, mret, Eff_ret, emit. simpl.
  destruct (ShouldRun p branch changes fo d) as [b oe]; simpl in *.
  subst oe. unfold result, trace.
  destruct b; simpl;
    match goal with |- context [rangePresubmits ?a ?b ?c ?d ?e] =>
      by destruct (rangePresubmits a b c d e) end.
Qed.
(** How [advance] moves over one more job. *)
Lemma advance_unmatched p pre vars :
  matched p = false → advance vars (p :: pre) = advance vars pre.
Proof.
  intros Hm. unfold_advance.
  rewrite !filter_cons_False; [done| |]; rewrite Hm; simpl; congruence.
Qed.

Lemma advance_trigger p pre vars :
  matched p = true → (runCondition p).1 = true →
  advance vars (p :: pre) =
  advance {| toTrigger := toTrigger vars ++ [p];
             namesToTrigger := namesToTrigger vars ++ [Name p];
             toSkip := toSkip vars;
             namesToSkip := namesToSkip vars |} pre.
Proof.
  intros Hm Hr. unfold_advance.
  rewrite filter_cons_True; [|by rewrite Hm, Hr].
  rewrite filter_cons_False; [|by rewrite Hm, Hr].
  simpl. by rewrite <- !app_assoc.
Qed.

Lemma advance_skip p pre vars :
  matched p = true → (runCondition p).1 = false →
  advance vars (p :: pre) =
  advance {| toTrigger := toTrigger vars;
             namesToTrigger := namesToTrigger vars;
             toSkip := toSkip vars ++ [p];
             namesToSkip := namesToSkip vars ++ [Name p] |} pre.
Proof.
  intros Hm Hr. unfold_advance.
  rewrite filter_cons_False; [|by rewrite Hm, Hr].
  rewrite filter_cons_True; [|by rewrite Hm, Hr].
  simpl. by rewrite <- !app_assoc.
Qed.

Lemma fails_false_evaluated p :
  fails p = false → matched p = true → (runCondition p).2 = None.
Proof.
  unfold_fails. intros Hf Hm. rewrite Hm in Hf. simpl in Hf.
  by destruct ((runCondition p).2).
Qed.

Lemma fails_true_error p :
  fails p = true → matched p = true ∧ ∃ e, (runCondition p).2 = Some e.
Proof.
  unfold_fails. intros [Hm He]%andb_true_iff. split; [done|].
  destruct ((runCondition p).2) as [e|]; [by exists e|done].
Qed.

(** The loop over a prefix on which no run condition fails: the calls of
    the matched jobs of the prefix, in order, then the loop over the rest
    from the advanced slices. *)
Lemma range_prefix pre rest vars :
  Forall (λ p, fails p = false) pre →
  range (pre ++ rest) vars =
  (result (range rest (advance vars pre)),
   (callOf <$> base.filter (λ p, matched p = true) pre)
     ++ trace (range rest (advance vars pre))).
Proof.
  intros Hpre. revert vars.
  induction Hpre as [|p pre Hp _ IH]; intros vars.
  - rewrite advance_nil. simpl. by destruct (range rest vars).
  - rewrite <- app_comm_cons. destruct (matched p) eqn:Hm.
    + rewrite range_evaluated by eauto using fails_false_evaluated.
      rewrite filter_cons_True by done. cbn zeta.
      destruct ((runCondition p).1) eqn:Hr.
      * rewrite IH. rewrite <- advance_trigger by done. done.
      * rewrite IH. rewrite <- advance_skip by done. done.
    + rewrite range_unmatched by done.
      rewrite filter_cons_False by congruence.
      rewrite IH. by rewrite advance_unmatched.
Qed.

(** The jobs of a list either all pass, or split around a first job whose
    run condition fails. *)
Lemma first_failure_or_none (presubmits : list Presubmit) :
  Forall (λ p, fails p = false) presubmits ∨
  ∃ pre p post,
    presubmits = pre ++ p :: post ∧
    Forall (λ q, fails q = false) pre ∧
    fails p = true.
Proof.
  induction presubmits as [|q presubmits IH]; [by left|].
  destruct (fails q) eqn:Hq.
  - right. exists [], q, presubmits. by repeat split.
  - destruct IH as [Hnone|(pre & p & post & -> & Hpre & Hp)].
    + left. by constructor.
    + right. exists (q :: pre), p, post. repeat split; [|done].
      by constructor.
Qed.
(** *** The two ways out of [FilterPresubmits] *)

Local Abbreviation FilterPresubmits :=
  (@FilterPresubmits _ _ error Entry _ _ filter changes branch).

(** No run condition fails: the function returns the two filtered lists
    and a nil error, after calling [ShouldRun] once for every matched job,
    in order, and [Debugf] once. *)
Lemma FilterPresubmits_ok (presubmits : list Presubmit) (logger : Entry) :
  Forall (λ p, fails p = false) presubmits →
  FilterPresubmits presubmits logger =
  ((base.filter (λ p, triggers p = true) presubmits,
    base.filter (λ p, skips p = true) presubmits, None),
   (callOf <$> base.filter (λ p, matched p = true) presubmits) ++
   [DebugfCall
      (WithFields logger
         (<["to-trigger" := Name <$> base.filter (λ p, triggers p = true) presubmits]>
            (<["to-skip" := Name <$> base.filter (λ p, skips p = true) presubmits]> ∅)))
      "Filtered %d jobs, found %d to trigger and %d to skip."
      [length presubmits;
       length (base.filter (λ p, triggers p = true) presubmits);
       length (base.filter (λ p, skips p = true) presubmits)]]).
Proof.
  intros Hok. unfold_FilterPresubmits.
  rewrite <- (app_nil_r presubmits) at 1.
  rewrite range_prefix by done. simpl.
  unfold mbind, Eff_bind, mret, Eff_ret, Debugf, emit, result, trace. simpl.
  by rewrite !app_nil_r.
Qed.

(** A run condition fails: the function returns at the first such job,
    with nil slices and the error, after calling [ShouldRun] for the
    matched jobs up to that one and nothing else. *)
Lemma FilterPresubmits_err pre p post e (logger : Entry) :
  Forall (λ q, fails q = false) pre →
  matched p = true → (runCondition p).2 = Some e →
  FilterPresubmits (pre ++ p :: post) logger =
  (([], [], Some e),
   (callOf <$> base.filter (λ q, matched q = true) pre) ++ [callOf p]).
Proof.
  intros Hpre Hm He. unfold_FilterPresubmits.
  rewrite range_prefix by done.
  rewrite (range_error _ _ _ e) by done.
  unfold mbind, Eff_bind, mret, Eff_ret, result, trace. simpl.
  by rewrite !app_nil_r.
Qed.

(** The returned error is nil exactly when no run condition fails. *)
Lemma FilterPresubmits_nil_error (presubmits : list Presubmit) (logger : Entry) :
  (result (FilterPresubmits presubmits logger)).2 = None ↔
  Forall (λ p, fails p = false) presubmits.
Proof.
  split.
  - intros Hnil.
    destruct (first_failure_or_none presubmits)
      as [Hok|(pre & p & post & -> & Hpre & Hp)]; [done|].
    apply fails_true_error in Hp as [Hm [e He]].
    by rewrite (FilterPresubmits_err _ _ _ e) in Hnil.
  - intros Hok. by rewrite FilterPresubmits_ok.
Qed.

(** *** Filtering twice by the run condition is a stable partition *)

Lemma triggers_true p :
  triggers p = true ↔ matched p = true ∧ (runCondition p).1 = true.
Proof. unfold_partition. apply andb_true_iff. Qed.

Lemma skips_true p :
  skips p = true ↔ matched p = true ∧ (runCondition p).1 = false.
Proof.
  unfold_partition. rewrite andb_true_iff, negb_true_iff. done.
Qed.

Lemma trigger_skip_exact (presubmits : list Presubmit) :
  base.filter (λ p, triggers p = true) presubmits
    ++ base.filter (λ p, skips p = true) presubmits
  ≡ₚ base.filter (λ p, matched p = true) presubmits.
Proof.
  induction presubmits as [|p presubmits IH]; [done|].
  destruct (matched p) eqn:Hm; [destruct ((runCondition p).1) eqn:Hr|].
  - rewrite (filter_cons_True (λ p, triggers p = true))
      by (apply triggers_true; done).
    rewrite (filter_cons_False (λ p, skips p = true))
      by (rewrite skips_true; intros [_ ?]; congruence).
    rewrite (filter_cons_True (λ p, matched p = true)) by done.
    simpl. by rewrite IH.
  - rewrite (filter_cons_False (λ p, triggers p = true))
      by (rewrite triggers_true; intros [_ ?]; congruence).
    rewrite (filter_cons_True (λ p, skips p = true))
      by (apply skips_true; done).
    rewrite (filter_cons_True (λ p, matched p = true)) by done.
    rewrite <- Permutation_middle. by rewrite IH.
  - rewrite (filter_cons_False (λ p, triggers p = true))
      by (rewrite triggers_true; intros [? _]; congruence).
    rewrite (filter_cons_False (λ p, skips p = true))
      by (rewrite skips_true; intros [? _]; congruence).
    rewrite (filter_cons_False (λ p, matched p = true)) by congruence.
    done.
Qed.

Lemma filters_StablePartition (presubmits : list Presubmit) :
  StablePartition filter changes branch presubmits
    (base.filter (λ p, triggers p = true) presubmits)
    (base.filter (λ p, skips p = true) presubmits).
Proof.
  split; [done|done|apply sublist_filter|apply sublist_filter| |].
  - intros p [Ht _]%list_elem_of_filter [Hs _]%list_elem_of_filter.
    apply triggers_true in Ht as [_ Ht]. apply skips_true in Hs as [_ Hs].
    congruence.
  - apply trigger_skip_exact.
Qed.
(** *** Statements about [FilterPresubmits] *)

(** C1 (as amended): whenever [FilterPresubmits] returns a nil error, its
    two outputs form a stable two-way partition of exactly the matched
    jobs: [toTrigger] is the input filtered by "matched and [ShouldRun]
    says true", [toSkip] the input filtered by "matched and [ShouldRun]
    says false", each in input order, no job is in both, and together they
    hold every matched job as often as the input does. *)
Theorem FilterPresubmits_stable_partition
    (presubmits : list Presubmit) (logger : Entry) :
  (result (FilterPresubmits presubmits logger)).2 = None →
  StablePartition filter changes branch presubmits
    (result (FilterPresubmits presubmits logger)).1.1
    (result (FilterPresubmits presubmits logger)).1.2.
Proof.
  intros Hok%FilterPresubmits_nil_error.
  rewrite FilterPresubmits_ok by done. simpl.
  apply filters_StablePartition.
Qed.

(** C3: if the run condition of some matched job of the input is an
    error, [FilterPresubmits] stops at the first such job [q]: it returns
    that job's error with both output slices empty, whatever the jobs
    before [q] had accumulated, and its trace holds the [ShouldRun] calls
    of the matched jobs before [q], then the call on [q], and nothing
    after: no job behind [q] is evaluated and nothing is logged. *)
Theorem FilterPresubmits_fail_fast
    (presubmits : list Presubmit) (logger : Entry) (p : Presubmit) :
  p ∈ presubmits → matched p = true → is_Some (runCondition p).2 →
  ∃ pre q post e,
    presubmits = pre ++ q :: post ∧
    Forall (λ p', fails p' = false) pre ∧
    matched q = true ∧ (runCondition q).2 = Some e ∧
    result (FilterPresubmits presubmits logger) = ([], [], Some e) ∧
    trace (FilterPresubmits presubmits logger) =
      (callOf <$> base.filter (λ p', matched p' = true) pre) ++ [callOf q].
Proof.
  intros Hin Hm [e' He'].
  destruct (first_failure_or_none presubmits)
    as [Hok|(pre & q & post & -> & Hpre & Hq)].
  - rewrite Forall_forall in Hok. specialize (Hok p Hin).
    apply fails_false_evaluated in Hok; [congruence|done].
  - apply fails_true_error in Hq as [Hmq [e He]].
    exists pre, q, post, e. rewrite (FilterPresubmits_err _ _ _ e) by done.
    by repeat split.
Qed.

(** C6: a job the filter does not match is in neither output of
    [FilterPresubmits], and no event of the trace is a call of its
    [ShouldRun]. *)
Theorem FilterPresubmits_unmatched_excluded
    (presubmits : list Presubmit) (logger : Entry) (j : Presubmit) :
  matched j = false →
  (j ∉ (result (FilterPresubmits presubmits logger)).1.1) ∧
  (j ∉ (result (FilterPresubmits presubmits logger)).1.2) ∧
  ∀ ev, ev ∈ trace (FilterPresubmits presubmits logger) → called_on ev ≠ Some j.
Proof.
  intros Hj.
  assert (Hcalls : ∀ (l : list Presubmit) (ev : Event _ _ Entry),
    ev ∈ callOf <$> base.filter (λ p, matched p = true) l →
    called_on ev ≠ Some j).
  { intros l ev (q & -> & [Hq _]%list_elem_of_filter)%list_elem_of_fmap.
    simpl. intros [= ->]. congruence. }
  destruct (first_failure_or_none presubmits)
    as [Hok|(pre & q & post & -> & Hpre & Hq)].
  - rewrite FilterPresubmits_ok by done. unfold result, trace. simpl.
    split; [|split].
    + intros [Ht _]%list_elem_of_filter.
      apply triggers_true in Ht as [? _]. congruence.
    + intros [Hs _]%list_elem_of_filter.
      apply skips_true in Hs as [? _]. congruence.
    + intros ev [Hev|Hev%list_elem_of_singleton]%elem_of_app.
      * by eapply Hcalls.
      * by subst ev.
  - apply fails_true_error in Hq as [Hmq [e He]].
    rewrite (FilterPresubmits_err _ _ _ e) by done. unfold result, trace. simpl.
    split; [|split]; [apply not_elem_of_nil..|].
    intros ev [Hev|Hev%list_elem_of_singleton]%elem_of_app.
    + by eapply Hcalls.
    + subst ev. simpl. intros [= ->]. congruence.
Qed.
End loop.

(** ** The logger *)

Section logger.
Context {Presubmit ChangedFilesProvider error : Type}.
Context `{!PresubmitAPI Presubmit ChangedFilesProvider error}.
Context {Entry1 Entry2 : Type} `{!EntryAPI Entry1} `{!EntryAPI Entry2}.
Variable filter : Filter Presubmit.
Variable changes : ChangedFilesProvider.
Variable branch : string.

Lemma shouldRunArgs_callOf {Entry : Type} (l : list Presubmit) :
  omap shouldRunArgs (@callOf _ _ Entry filter changes branch <$> l) =
  (λ p, (p, branch, changes, forcedToRun (filter p), defaultBehavior (filter p)))
    <$> l.
Proof.
  induction l as [|p l IH]; [done|]. csimpl. by rewrite IH.
Qed.

(** Two loggers that log, of any two implementations of the logging
    interface: the runs return the same and make the same [ShouldRun]
    calls. *)
Lemma FilterPresubmits_logging_loggers
    (presubmits : list Presubmit) (logger1 : Entry1) (logger2 : Entry2) :
  result (FilterPresubmits filter changes branch presubmits logger1) =
  result (FilterPresubmits filter changes branch presubmits logger2) ∧
  omap shouldRunArgs
    (trace (FilterPresubmits filter changes branch presubmits logger1)) =
  omap shouldRunArgs
    (trace (FilterPresubmits filter changes branch presubmits logger2)).
Proof.
  destruct (first_failure_or_none filter changes branch presubmits)
    as [Hok|(pre & q & post & -> & Hpre & Hq)].
  - rewrite !FilterPresubmits_ok by done. unfold result, trace. simpl.
    split; [done|].
    by rewrite !omap_app, !shouldRunArgs_callOf.
  - apply fails_true_error in Hq as [Hmq [e He]].
    rewrite !(FilterPresubmits_err _ _ _ _ _ _ e) by done.
    unfold result, trace. simpl. split; [done|].
    by rewrite !omap_app, !shouldRunArgs_callOf.
Qed.
End logger.

(** ** Concrete runs on the fixture *)

Section runs.
Import fixture.

Local Abbreviation run filter presubmits :=
  (FilterPresubmits filter () "main" presubmits (∅ : Fields)).

(** A "/test all" over a job that needs no explicit trigger and one that
    does: the second is in neither output. *)
Example test_all_excludes_explicit :
  result (run TestAllFilter [unit_tests; bar]) = ([unit_tests], [], None).
Proof. reflexivity. Qed.

(** A comment that names no job in it still pins the third result. *)
Example command_filter_unmatched :
  CommandFilter "/test foo" bar = (false, false, true).
Proof. reflexivity. Qed.

(** Command filter before the "/test all" filter: the command wins on
    [foo], "/test all" answers for [docs], nobody matches [bar]. *)
Example aggregate_on_fixture :
  let both := AggregateFilter [CommandFilter "/test foo"; TestAllFilter] in
  both foo = (true, true, true) ∧
  both docs = (true, false, false) ∧
  both bar = (false, false, false).
Proof. by repeat split. Qed.

(** A "/test foo" comment matches [foo] only, and forces it. *)
Example command_selects_foo :
  result (run (CommandFilter "/test foo") [unit_tests; foo; bar]) =
  ([foo], [], None).
Proof. vm_compute. reflexivity. Qed.

(** The calls made on the way, and the three counts that are logged. *)
Example test_all_trace :
  trace (run TestAllFilter [unit_tests; bar; docs]) =
  [ShouldRunCall unit_tests "main" () false false;
   ShouldRunCall docs "main" () false false;
   DebugfCall (WithFields ∅ (<["to-trigger" := ["unit"]]> (<["to-skip" := ["docs"]]> ∅)))
     "Filtered %d jobs, found %d to trigger and %d to skip." [3; 1; 1]].
Proof. reflexivity. Qed.

(** An error after a job that would trigger: what was accumulated is
    dropped, and the job behind the failing one is not evaluated. *)
Example error_drops_partial_results :
  run TestAllFilter [unit_tests; broken; docs] =
  (([], [], Some "bad run_if_changed"),
   [ShouldRunCall unit_tests "main" () false false;
    ShouldRunCall broken "main" () false false]).
Proof. reflexivity. Qed.

(** C1, as stated, fails: with the always-run job [unit_tests] before the
    job [broken], whose run condition is an error, the filter matches
    [unit_tests] and its [ShouldRun] says true, yet [toTrigger] is empty. *)
Lemma FilterPresubmits_partition_fails_on_error :
  ¬ StablePartition TestAllFilter () "main" [unit_tests; broken]
      (result (run TestAllFilter [unit_tests; broken])).1.1
      (result (run TestAllFilter [unit_tests; broken])).1.2.
Proof.
  intros [Htrigger _ _ _ _ _]. vm_compute in Htrigger. discriminate.
Qed.

(** A run without error, with jobs that trigger, are skipped and are not
    matched. *)
Lemma FilterPresubmits_stable_partition_witness :
  (result (run TestAllFilter [unit_tests; docs; bar; foo])).2 = None ∧
  StablePartition TestAllFilter () "main" [unit_tests; docs; bar; foo]
    (result (run TestAllFilter [unit_tests; docs; bar; foo])).1.1
    (result (run TestAllFilter [unit_tests; docs; bar; foo])).1.2.
Proof.
  split; [reflexivity|].
  apply (FilterPresubmits_stable_partition TestAllFilter () "main").
  reflexivity.
Defined.

(** A run that fails on its second job, after one that would trigger. *)
Lemma FilterPresubmits_fail_fast_witness :
  broken ∈ [unit_tests; broken; docs] ∧
  matched TestAllFilter broken = true ∧
  is_Some (runCondition TestAllFilter () "main" broken).2 ∧
  ∃ pre q post e,
    [unit_tests; broken; docs] = pre ++ q :: post ∧
    Forall (λ p', fails TestAllFilter () "main" p' = false) pre ∧
    matched TestAllFilter q = true ∧
    (runCondition TestAllFilter () "main" q).2 = Some e ∧
    result (run TestAllFilter [unit_tests; broken; docs]) = ([], [], Some e) ∧
    trace (run TestAllFilter [unit_tests; broken; docs]) =
      (callOf TestAllFilter () "main"
         <$> base.filter (λ p', matched TestAllFilter p' = true) pre)
      ++ [callOf TestAllFilter () "main" q].
Proof.
  assert (Hin : broken ∈ [unit_tests; broken; docs]) by (right; left).
  assert (Herr : is_Some (runCondition TestAllFilter () "main" broken).2)
    by (by exists "bad run_if_changed").
  split; [exact Hin|]. split; [reflexivity|]. split; [exact Herr|].
  apply (FilterPresubmits_fail_fast TestAllFilter () "main" _ _ broken Hin);
    [reflexivity|exact Herr].
Defined.

(** [bar] needs an explicit trigger, so "/test all" does not match it. *)
Lemma FilterPresubmits_unmatched_excluded_witness :
  matched TestAllFilter bar = false ∧
  (bar ∉ (result (run TestAllFilter [unit_tests; bar; docs])).1.1) ∧
  (bar ∉ (result (run TestAllFilter [unit_tests; bar; docs])).1.2) ∧
  ∀ ev, ev ∈ trace (run TestAllFilter [unit_tests; bar; docs]) →
        called_on ev ≠ Some bar.
Proof.
  split; [reflexivity|].
  apply (FilterPresubmits_unmatched_excluded TestAllFilter () "main").
  reflexivity.
Defined.

(** The comment "/test foo" on the job it triggers. *)
Lemma CommandFilter_matches_witness :
  matches (CommandFilter "/test foo" foo) = true ∧
  forcedToRun (CommandFilter "/test foo" foo) = true ∧
  defaultBehavior (CommandFilter "/test foo" foo) = true.
Proof.
  split; [reflexivity|].
  apply (CommandFilter_matches "/test foo" foo). reflexivity.
Defined.
End runs.

(** ** Further properties of [FilterPresubmits] *)

Section further.
Context {Presubmit ChangedFilesProvider error Entry : Type}.
Context `{!PresubmitAPI Presubmit ChangedFilesProvider error}.
Context `{!EntryAPI Entry}.
Variable filter : Filter Presubmit.
Variable changes : ChangedFilesProvider.
Variable branch : string.

Local Abbreviation matched := (matched filter).
Local Abbreviation triggers := (triggers filter changes branch).
Local Abbreviation skips := (skips filter changes branch).
Local Abbreviation fails := (fails filter changes branch).
Local Abbreviation runCondition := (runCondition filter changes branch).
Local Abbreviation callOf := (@callOf _ _ Entry filter changes branch).
Local Abbreviation FilterPresubmits :=
  (@FilterPresubmits _ _ error Entry _ _ filter changes branch).
Local Abbreviation argsOf :=
  (λ p : Presubmit,
     (p, branch, changes, forcedToRun (filter p), defaultBehavior (filter p))).
Local Abbreviation shouldRunCalls m :=
  (omap shouldRunArgs (trace (m : Eff Presubmit ChangedFilesProvider Entry _))).

Implicit Types (p : Presubmit) (presubmits : list Presubmit) (logger : Entry).

(** A list none of whose elements satisfies [P] filters to nothing. *)
Lemma filter_none {A} (P : A → Prop) `{!∀ x, Decision (P x)} (l : list A) :
  Forall (λ x, ¬ P x) l → base.filter P l = [].
Proof.
  induction 1 as [|x l Hx _ IH]; [done|]. by rewrite filter_cons_False.
Qed.

(** A list all of whose elements satisfy [P] filters to itself. *)
Lemma filter_all {A} (P : A → Prop) `{!∀ x, Decision (P x)} (l : list A) :
  Forall P l → base.filter P l = l.
Proof.
  induction 1 as [|x l Hx _ IH]; [done|].
  rewrite filter_cons_True by done. by rewrite IH.
Qed.

(** The [ShouldRun] calls of a run without failure, and of a run that
    fails at [q]. *)
Lemma shouldRunCalls_ok presubmits logger :
  Forall (λ p, fails p = false) presubmits →
  shouldRunCalls (FilterPresubmits presubmits logger) =
  argsOf <$> base.filter (λ p, matched p = true) presubmits.
Proof.
  intros Hok. rewrite FilterPresubmits_ok by done. unfold trace. simpl.
  rewrite omap_app, shouldRunArgs_callOf. simpl. by rewrite app_nil_r.
Qed.

Lemma shouldRunCalls_err pre q post e logger :
  Forall (λ p, fails p = false) pre →
  matched q = true → (runCondition q).2 = Some e →
  shouldRunCalls (FilterPresubmits (pre ++ q :: post) logger) =
  argsOf <$> (base.filter (λ p, matched p = true) pre ++ [q]).
Proof.
  intros Hpre Hq He. rewrite (FilterPresubmits_err _ _ _ _ _ _ e) by done.
  unfold trace. simpl.
  by rewrite omap_app, shouldRunArgs_callOf, fmap_app.
Qed.

(** In every run the [ShouldRun] calls are an initial part of the calls
    due to the matched jobs. *)
Lemma shouldRunCalls_prefix presubmits logger :
  shouldRunCalls (FilterPresubmits presubmits logger)
    `prefix_of` argsOf <$> base.filter (λ p, matched p = true) presubmits.
Proof.
  destruct (first_failure_or_none filter changes branch presubmits)
    as [Hok|(pre & q & post & -> & Hpre & Hq)].
  - by rewrite shouldRunCalls_ok.
  - apply fails_true_error in Hq as [Hmq [e He]].
    rewrite (shouldRunCalls_err _ _ _ e) by done.
    rewrite filter_app, filter_cons_True by done.
    exists (argsOf <$> base.filter (λ p, matched p = true) post).
    rewrite !fmap_app, <- (assoc_L (++)). done.
Qed.

(** X1: the error [FilterPresubmits] returns is nil exactly when the run
    condition of no matched job of the input is an error, and an error it
    returns is the error of a matched job of the input: a job the filter
    does not match never makes the call fail. *)
Theorem FilterPresubmits_error_source presubmits logger :
  ((result (FilterPresubmits presubmits logger)).2 = None ↔
   ∀ p, p ∈ presubmits → matched p = true → (runCondition p).2 = None) ∧
  ∀ e, (result (FilterPresubmits presubmits logger)).2 = Some e →
       ∃ p, p ∈ presubmits ∧ matched p = true ∧ (runCondition p).2 = Some e.
Proof.
  destruct (first_failure_or_none filter changes branch presubmits)
    as [Hok|(pre & q & post & -> & Hpre & Hq)].
  - rewrite FilterPresubmits_ok by done. unfold result. simpl.
    split; [|done]. split; [|done]. intros _ p Hin Hm.
    rewrite Forall_forall in Hok.
    eapply fails_false_evaluated; eauto.
  - apply fails_true_error in Hq as [Hmq [e He]].
    rewrite (FilterPresubmits_err _ _ _ _ _ _ e) by done.
    unfold result. simpl. split.
    + split; [done|]. intros Hall.
      rewrite (Hall q) in He; [done| |done].
      apply elem_of_app. right. left.
    + intros e' [= <-]. exists q. split; [|done].
      apply elem_of_app. right. left.
Qed.

(** X2: the [ShouldRun] calls of a run are, in input order, an initial
    part of one call per matched job, each on the given branch and change
    provider with the forced and default flags the filter returned for
    that job; when the returned error is nil they are all of them. *)
Theorem FilterPresubmits_call_protocol presubmits logger :
  shouldRunCalls (FilterPresubmits presubmits logger)
    `prefix_of` argsOf <$> base.filter (λ p, matched p = true) presubmits ∧
  ((result (FilterPresubmits presubmits logger)).2 = None →
   shouldRunCalls (FilterPresubmits presubmits logger) =
   argsOf <$> base.filter (λ p, matched p = true) presubmits).
Proof.
  split; [apply shouldRunCalls_prefix|].
  intros Hok%FilterPresubmits_nil_error. by apply shouldRunCalls_ok.
Qed.

(** X3: when the returned error is nil, the last event of the run is the
    one [Debugf] call, and it reports what is returned: the fields hold
    the names of the returned jobs, in order, and the arguments are the
    lengths of the input and of the two outputs.  Before it come the
    [ShouldRun] calls only. *)
Theorem FilterPresubmits_log_record presubmits logger :
  (result (FilterPresubmits presubmits logger)).2 = None →
  trace (FilterPresubmits presubmits logger) =
  (callOf <$> base.filter (λ p, matched p = true) presubmits) ++
  [DebugfCall
     (WithFields logger
        (<["to-trigger" := Name <$> (result (FilterPresubmits presubmits logger)).1.1]>
           (<["to-skip" := Name <$> (result (FilterPresubmits presubmits logger)).1.2]> ∅)))
     "Filtered %d jobs, found %d to trigger and %d to skip."
     [length presubmits;
      length (result (FilterPresubmits presubmits logger)).1.1;
      length (result (FilterPresubmits presubmits logger)).1.2]].
Proof.
  intros Hok%FilterPresubmits_nil_error.
  by rewrite FilterPresubmits_ok.
Qed.
Lemma called_on_callOf (l : list Presubmit) :
  omap called_on (callOf <$> l) = l.
Proof. induction l as [|p l IH]; [done|]. csimpl. by rewrite IH. Qed.

(** A filter by a stronger test keeps a part of what the weaker keeps. *)
Lemma filter_sublist_filter (P Q : Presubmit → Prop)
    `{!∀ p, Decision (P p)} `{!∀ p, Decision (Q p)} (l : list Presubmit) :
  (∀ p, P p → Q p) → base.filter P l `sublist_of` base.filter Q l.
Proof.
  intros HPQ.
  assert (base.filter P l = base.filter P (base.filter Q l)) as ->.
  { rewrite list_filter_filter. apply list_filter_iff.
    intros p. split; [by auto|by intros [? _]]. }
  apply sublist_filter.
Qed.

(** X4: in every run the jobs on which [ShouldRun] is called, in call
    order, are a sub-sequence of the input, so that no input job is
    evaluated more than once; each of the two outputs is a sub-sequence of
    these jobs, so that no job is returned without having been evaluated.
    Hence the two outputs together are no longer than the list of
    [ShouldRun] calls, which is no longer than the input. *)
Theorem FilterPresubmits_counts presubmits logger :
  omap called_on (trace (FilterPresubmits presubmits logger))
    `sublist_of` presubmits ∧
  (result (FilterPresubmits presubmits logger)).1.1
    `sublist_of` omap called_on (trace (FilterPresubmits presubmits logger)) ∧
  (result (FilterPresubmits presubmits logger)).1.2
    `sublist_of` omap called_on (trace (FilterPresubmits presubmits logger)) ∧
  length (result (FilterPresubmits presubmits logger)).1.1 +
  length (result (FilterPresubmits presubmits logger)).1.2
  ≤ length (shouldRunCalls (FilterPresubmits presubmits logger)) ∧
  length (shouldRunCalls (FilterPresubmits presubmits logger))
  ≤ length presubmits.
Proof.
  split; [|split; [|split; [|split]]].
  - destruct (first_failure_or_none filter changes branch presubmits)
      as [Hok|(pre & q & post & -> & Hpre & Hq)].
    + rewrite FilterPresubmits_ok by done. unfold trace. simpl.
      rewrite omap_app, called_on_callOf. simpl. rewrite app_nil_r.
      apply sublist_filter.
    + apply fails_true_error in Hq as [Hmq [e He]].
      rewrite (FilterPresubmits_err _ _ _ _ _ _ e) by done. unfold trace. simpl.
      rewrite omap_app, called_on_callOf. simpl.
      apply sublist_app; [apply sublist_filter|].
      apply sublist_skip, sublist_nil_l.
  - destruct (first_failure_or_none filter changes branch presubmits)
      as [Hok|(pre & q & post & -> & Hpre & Hq)].
    + rewrite FilterPresubmits_ok by done. unfold result, trace. simpl.
      rewrite omap_app, called_on_callOf. simpl. rewrite app_nil_r.
      apply filter_sublist_filter. by intros p [? _]%triggers_true.
    + apply fails_true_error in Hq as [Hmq [e He]].
      rewrite (FilterPresubmits_err _ _ _ _ _ _ e) by done.
      apply sublist_nil_l.
  - destruct (first_failure_or_none filter changes branch presubmits)
      as [Hok|(pre & q & post & -> & Hpre & Hq)].
    + rewrite FilterPresubmits_ok by done. unfold result, trace. simpl.
      rewrite omap_app, called_on_callOf. simpl. rewrite app_nil_r.
      apply filter_sublist_filter. by intros p [? _]%skips_true.
    + apply fails_true_error in Hq as [Hmq [e He]].
      rewrite (FilterPresubmits_err _ _ _ _ _ _ e) by done.
      apply sublist_nil_l.
  - destruct (first_failure_or_none filter changes branch presubmits)
      as [Hok|(pre & q & post & -> & Hpre & Hq)].
    + rewrite shouldRunCalls_ok by done.
      rewrite FilterPresubmits_ok by done. unfold result. simpl.
      rewrite length_fmap, <- length_app.
      by rewrite (trigger_skip_exact filter changes branch presubmits).
    + apply fails_true_error in Hq as [Hmq [e He]].
      rewrite (FilterPresubmits_err _ _ _ _ _ _ e) by done.
      unfold result. simpl. lia.
  - destruct (shouldRunCalls_prefix presubmits logger) as [k Hk].
    pose proof (length_filter (λ p, matched p = true) presubmits) as Hle.
    apply (f_equal length) in Hk.
    rewrite length_fmap, length_app in Hk. lia.
Qed.

(** X5: a run over [l1 ++ l2] is the run over [l1] followed by the run
    over [l2].  If the run over [l1] fails, so does the whole with the
    same error and the same [ShouldRun] calls, and [l2] is not looked at;
    otherwise the [ShouldRun] calls are those of [l1] then those of [l2],
    and the result is the error of [l2] or else the outputs of [l1]
    followed by the outputs of [l2]. *)
Theorem FilterPresubmits_app (l1 l2 : list Presubmit) logger :
  match result (FilterPresubmits l1 logger), result (FilterPresubmits l2 logger) with
  | (_, _, Some e), _ =>
      result (FilterPresubmits (l1 ++ l2) logger) = ([], [], Some e) ∧
      shouldRunCalls (FilterPresubmits (l1 ++ l2) logger) =
      shouldRunCalls (FilterPresubmits l1 logger)
  | (trigger1, skip1, None), (trigger2, skip2, err2) =>
      result (FilterPresubmits (l1 ++ l2) logger) =
      match err2 with
      | Some e => ([], [], Some e)
      | None => (trigger1 ++ trigger2, skip1 ++ skip2, None)
      end ∧
      shouldRunCalls (FilterPresubmits (l1 ++ l2) logger) =
      shouldRunCalls (FilterPresubmits l1 logger) ++
      shouldRunCalls (FilterPresubmits l2 logger)
  end.
Proof.
  destruct (first_failure_or_none filter changes branch l1)
    as [Hok1|(pre & q & post & -> & Hpre & Hq)].
  - rewrite (shouldRunCalls_ok l1) by done.
    rewrite (FilterPresubmits_ok _ _ _ l1) by done. unfold result at 1. simpl.
    destruct (first_failure_or_none filter changes branch l2)
      as [Hok2|(pre & q & post & -> & Hpre & Hq)].
    + assert (Forall (λ p, fails p = false) (l1 ++ l2)) by by apply Forall_app.
      rewrite !shouldRunCalls_ok by done.
      rewrite !FilterPresubmits_ok by done. unfold result. simpl.
      by rewrite !filter_app, fmap_app.
    + apply fails_true_error in Hq as [Hmq [e He]].
      assert (Forall (λ p, fails p = false) (l1 ++ pre)) by by apply Forall_app.
      rewrite (shouldRunCalls_err pre _ _ e) by done.
      rewrite (FilterPresubmits_err _ _ _ pre _ _ e) by done.
      rewrite (assoc_L (++) l1 pre).
      rewrite (shouldRunCalls_err (l1 ++ pre) _ _ e) by done.
      rewrite (FilterPresubmits_err _ _ _ (l1 ++ pre) _ _ e) by done.
      unfold result. simpl. split; [done|].
      by rewrite filter_app, !fmap_app, (assoc_L (++)).
  - apply fails_true_error in Hq as [Hmq [e He]].
    rewrite (shouldRunCalls_err pre _ _ e) by done.
    rewrite (FilterPresubmits_err _ _ _ pre _ _ e) by done.
    rewrite <- (assoc_L (++) pre), <- app_comm_cons.
    rewrite (shouldRunCalls_err pre _ _ e) by done.
    rewrite (FilterPresubmits_err _ _ _ pre _ _ e) by done.
    done.
Qed.

(** X6: filtering again what a run without error returned changes
    nothing: the jobs to trigger all trigger again, and the jobs to skip
    are all skipped again. *)
Theorem FilterPresubmits_refilter presubmits logger logger' :
  (result (FilterPresubmits presubmits logger)).2 = None →
  result (FilterPresubmits (result (FilterPresubmits presubmits logger)).1.1 logger')
  = ((result (FilterPresubmits presubmits logger)).1.1, [], None) ∧
  result (FilterPresubmits (result (FilterPresubmits presubmits logger)).1.2 logger')
  = ([], (result (FilterPresubmits presubmits logger)).1.2, None).
Proof.
  intros Hok%FilterPresubmits_nil_error.
  rewrite (FilterPresubmits_ok _ _ _ presubmits) by done. unfold result at 2 3 5 6.
  simpl.
  assert (Hsub : ∀ (P : Presubmit → Prop) `{!∀ x, Decision (P x)},
    Forall (λ p, fails p = false) (base.filter P presubmits)).
  { intros P ?. rewrite Forall_forall in Hok. rewrite Forall_forall.
    intros p [_ Hin]%list_elem_of_filter. by apply Hok. }
  assert (Hexcl : ∀ p, triggers p = true → skips p = true → False).
  { intros p [_ Ht]%triggers_true [_ Hs]%skips_true. congruence. }
  rewrite !FilterPresubmits_ok by apply Hsub. unfold result. simpl.
  rewrite (filter_all (λ p, triggers p = true) (base.filter (λ p, triggers p = true) _)).
  2: { rewrite Forall_forall. by intros p [? _]%list_elem_of_filter. }
  rewrite (filter_all (λ p, skips p = true) (base.filter (λ p, skips p = true) _)).
  2: { rewrite Forall_forall. by intros p [? _]%list_elem_of_filter. }
  rewrite (filter_none (λ p, skips p = true) (base.filter (λ p, triggers p = true) _)).
  2: { rewrite Forall_forall.
       intros p [? _]%list_elem_of_filter ?. by eapply Hexcl. }
  rewrite (filter_none (λ p, triggers p = true) (base.filter (λ p, skips p = true) _)).
  2: { rewrite Forall_forall.
       intros p [? _]%list_elem_of_filter ?. by eapply Hexcl. }
  done.
Qed.

(** The filter matches no job of the input, and the logger logs. *)
Lemma FilterPresubmits_nothing_matched_logged presubmits logger :
  Forall (λ p, matched p = false) presubmits →
  FilterPresubmits presubmits logger =
  (([], [], None),
   [DebugfCall
      (WithFields logger (<["to-trigger" := []]> (<["to-skip" := []]> ∅)))
      "Filtered %d jobs, found %d to trigger and %d to skip."
      [length presubmits; 0; 0]]).
Proof.
  intros Hnone.
  assert (Hok : Forall (λ p, fails p = false) presubmits).
  { eapply Forall_impl; [exact Hnone|]. intros p Hp. simpl in Hp.
    unfold_fails. by rewrite Hp. }
  rewrite FilterPresubmits_ok by done.
  rewrite (filter_none (λ p, matched p = true)), !(filter_none (λ p, _ = true)).
  - done.
  - eapply Forall_impl; [exact Hnone|]. intros p Hp [Hm _]%skips_true.
    simpl in Hp. congruence.
  - eapply Forall_impl; [exact Hnone|]. intros p Hp [Hm _]%triggers_true.
    simpl in Hp. congruence.
  - eapply Forall_impl; [exact Hnone|]. intros p Hp Hm.
    simpl in Hp. congruence.
Qed.
End further.

(** ** Filters under [FilterPresubmits], and aggregates of aggregates *)

Section composition.
Context {Presubmit ChangedFilesProvider error Entry : Type}.
Context `{!PresubmitAPI Presubmit ChangedFilesProvider error}.
Context `{!EntryAPI Entry}.

Implicit Types (f g : Filter Presubmit) (fs gs : list (Filter Presubmit)).
Implicit Types (j p : Presubmit) (presubmits : list Presubmit).
Implicit Types (changes : ChangedFilesProvider) (branch body : string).
Implicit Types (logger : Entry).

Local Abbreviation shouldRunCalls m :=
  (omap shouldRunArgs (trace (m : Eff Presubmit ChangedFilesProvider Entry _))).

(** The loop cannot tell two filters apart that agree on the jobs one of
    them matches. *)
Lemma rangePresubmits_ext f g changes branch presubmits
    (vars : locals Presubmit) :
  Forall (λ p, f p = g p ∨ (matches (f p) = false ∧ matches (g p) = false))
    presubmits →
  @rangePresubmits _ _ error Entry _ f changes branch presubmits vars =
  rangePresubmits g changes branch presubmits vars.
Proof.
  intros Hagree. revert vars.
  induction Hagree as [|p presubmits [Hp|[Hf Hg]] _ IH]; intros vars; [done| |].
  - simpl. rewrite <- Hp. destruct (f p) as [[m fo] d]. simpl.
    destruct m; simpl; [|apply IH].
    unfold callShouldRun, mbind, Eff_bind, mret, Eff_ret, emit. simpl.
    destruct (ShouldRun p branch changes fo d) as [b [e|]]; [done|].
    destruct b; by rewrite IH.
  - rewrite !range_unmatched by done. apply IH.
Qed.

(** An aggregate over [fs ++ gs] asks [fs] first. *)
Lemma AggregateFilter_app fs gs j :
  AggregateFilter (fs ++ gs) j =
  if matches (AggregateFilter fs j) then AggregateFilter fs j
  else AggregateFilter gs j.
Proof.
  induction fs as [|f fs IH]; [done|]. rewrite <- app_comm_cons.
  destruct (matches (f j)) eqn:Hf.
  - rewrite !AggregateFilter_cons_match by done. by rewrite Hf.
  - by rewrite !AggregateFilter_cons_no_match.
Qed.

Lemma AggregateFilter_cons f fs j :
  AggregateFilter (f :: fs) j =
  if matches (f j) then f j else AggregateFilter fs j.
Proof.
  destruct (matches (f j)) eqn:Hf.
  - by apply AggregateFilter_cons_match.
  - by apply AggregateFilter_cons_no_match.
Qed.

(** X8: [FilterPresubmits] reads the forced and default flags of a filter
    only on the jobs it matches: two filters that, on every job of the
    input, either answer the same or both do not match, give the same
    results, the same [ShouldRun] calls and the same log record. *)
Theorem FilterPresubmits_filter_ext f g changes branch presubmits logger :
  (∀ p, p ∈ presubmits →
        f p = g p ∨ (matches (f p) = false ∧ matches (g p) = false)) →
  FilterPresubmits f changes branch presubmits logger =
  FilterPresubmits g changes branch presubmits logger.
Proof.
  intros Hagree%Forall_forall. unfold FilterPresubmits.
  by rewrite (rangePresubmits_ext f g).
Qed.

(** X9: wrapping a filter in an aggregate of its own is invisible to
    [FilterPresubmits], although the two are not the same filter: the
    aggregate answers as the filter on the jobs the filter matches, and
    [(false, false, false)] on the others, whatever flags the filter
    returns there. *)
Theorem FilterPresubmits_singleton_aggregate f changes branch presubmits logger :
  FilterPresubmits (AggregateFilter [f]) changes branch presubmits logger =
  FilterPresubmits f changes branch presubmits logger ∧
  ∀ p, AggregateFilter [f] p =
       if matches (f p) then f p else (false, false, false).
Proof.
  assert (Hagg : ∀ p, AggregateFilter [f] p =
                      if matches (f p) then f p else (false, false, false)).
  { intros p. by rewrite AggregateFilter_cons. }
  split; [|exact Hagg].
  unfold FilterPresubmits.
  rewrite (rangePresubmits_ext (AggregateFilter [f]) f); [done|].
  apply Forall_forall. intros p _. rewrite Hagg.
  destruct (matches (f p)) eqn:Hf; [by left|right]. by split.
Qed.

(** X10: nested aggregates flatten.  The aggregate of [fs ++ gs] answers
    as the aggregate of the two aggregates of [fs] and of [gs], and the
    aggregate of a concatenation of lists as the aggregate of their
    aggregates. *)
Theorem AggregateFilter_flatten fs gs (fss : list (list (Filter Presubmit))) j :
  AggregateFilter (fs ++ gs) j =
  AggregateFilter [AggregateFilter fs; AggregateFilter gs] j ∧
  AggregateFilter (concat fss) j =
  AggregateFilter (AggregateFilter <$> fss) j.
Proof.
  assert (Hnone : ∀ hs, matches (AggregateFilter hs j) = false →
                        AggregateFilter hs j = (false, false, false)).
  { intros hs. induction hs as [|h hs IH]; [done|].
    rewrite AggregateFilter_cons. destruct (matches (h j)) eqn:Hh; [|done].
    congruence. }
  split.
  - rewrite AggregateFilter_app, !AggregateFilter_cons.
    destruct (matches (AggregateFilter fs j)); [done|].
    destruct (matches (AggregateFilter gs j)) eqn:Hgs; [done|].
    by apply Hnone.
  - induction fss as [|hs fss IH]; [done|]. simpl concat.
    rewrite fmap_cons, AggregateFilter_app, AggregateFilter_cons.
    by rewrite IH.
Qed.

(** X11: the command filter before the "test all" filter.  A job is
    matched when the comment triggers it or it needs no explicit trigger,
    and it is forced, with default behaviour true, exactly when the
    comment triggers it. *)
Theorem AggregateFilter_command_then_test_all body j :
  AggregateFilter [CommandFilter body; TestAllFilter] j =
  (TriggerMatches j body || negb (NeedsExplicitTrigger j),
   TriggerMatches j body, TriggerMatches j body).
Proof.
  unfold AggregateFilter, CommandFilter, TestAllFilter.
  by destruct (TriggerMatches j body), (NeedsExplicitTrigger j).
Qed.

(** X12: the order of the two filters matters.  With the "test all"
    filter first the same jobs are matched, but a job is forced only when
    the comment triggers it and it needs an explicit trigger; the two
    orders answer the same on a job unless the comment triggers it and it
    needs no explicit trigger. *)
Theorem AggregateFilter_test_all_then_command body j :
  AggregateFilter [TestAllFilter; CommandFilter body] j =
  (TriggerMatches j body || negb (NeedsExplicitTrigger j),
   TriggerMatches j body && NeedsExplicitTrigger j,
   TriggerMatches j body && NeedsExplicitTrigger j) ∧
  (AggregateFilter [TestAllFilter; CommandFilter body] j =
   AggregateFilter [CommandFilter body; TestAllFilter] j ↔
   ¬ (TriggerMatches j body = true ∧ NeedsExplicitTrigger j = false)).
Proof.
  unfold AggregateFilter, CommandFilter, TestAllFilter.
  destruct (TriggerMatches j body), (NeedsExplicitTrigger j); simpl;
    (split; [done|]); split.
  all: try (intros Heq [Ht Hn]; congruence).
  all: try done.
  intros H. exfalso. by apply H.
Qed.

(** X13: under [CommandFilter body] every [ShouldRun] call is forced with
    default behaviour true, and the calls go, in input order, to the jobs
    the comment triggers; when the returned error is nil the jobs to
    trigger are those of them whose forced run condition is true and the
    jobs to skip those whose forced run condition is false. *)
Theorem FilterPresubmits_CommandFilter body changes branch presubmits logger :
  shouldRunCalls (FilterPresubmits (CommandFilter body) changes branch presubmits logger)
    `prefix_of`
    ((λ p, (p, branch, changes, true, true))
       <$> base.filter (λ p, TriggerMatches p body = true) presubmits) ∧
  ((result (FilterPresubmits (CommandFilter body) changes branch presubmits logger)).2
     = None →
   (result (FilterPresubmits (CommandFilter body) changes branch presubmits logger)).1
   = (base.filter
        (λ p, TriggerMatches p body = true ∧
              (ShouldRun p branch changes true true).1 = true) presubmits,
      base.filter
        (λ p, TriggerMatches p body = true ∧
              (ShouldRun p branch changes true true).1 = false) presubmits)).
Proof.
  split.
  - pose proof (shouldRunCalls_prefix (CommandFilter body) changes branch
                  presubmits logger) as Hpre.
    erewrite (Forall_fmap_ext_1 _ (λ p, (p, branch, changes, true, true))) in Hpre;
      [exact Hpre|].
    rewrite Forall_forall. intros p [Hp _]%list_elem_of_filter.
    unfold matched, matches, CommandFilter in Hp. simpl in Hp.
    unfold forcedToRun, defaultBehavior, CommandFilter. simpl. by rewrite Hp.
  - intros Hok%FilterPresubmits_nil_error.
    rewrite FilterPresubmits_ok by done. unfold result. simpl. f_equal.
    + apply list_filter_iff. intros p. rewrite triggers_true.
      unfold matched, runCondition, matches, forcedToRun, defaultBehavior,
        CommandFilter. simpl.
      split; intros [Hm Hr]; (split; [done|]); by rewrite Hm in *.
    + apply list_filter_iff. intros p. rewrite skips_true.
      unfold matched, runCondition, matches, forcedToRun, defaultBehavior,
        CommandFilter. simpl.
      split; intros [Hm Hr]; (split; [done|]); by rewrite Hm in *.
Qed.

End composition.

(** ** The "/test all" pattern *)

Section pattern.
Implicit Types (r : Regexp) (prev : option Ascii.ascii).
Implicit Types (s lit pre post body : string) (c : Ascii.ascii).

Lemma append_empty s : "" +:+ s = s.
Proof. reflexivity. Qed.

Lemma append_String c s s' : String c s +:+ s' = String c (s +:+ s').
Proof. reflexivity. Qed.

Lemma strip_prefix_Some lit s s' :
  strip_prefix lit s = Some s' ↔ s = lit +:+ s'.
Proof.
  revert s. induction lit as [|c lit IH]; intros s.
  - rewrite append_empty. simpl. split; congruence.
  - rewrite append_String. simpl. destruct s as [|d s]; [done|].
    destruct (Ascii.eqb_spec c d) as [->|Hne].
    + rewrite IH. split; [by intros ->|by intros [= ->]].
    + split; [done|]. intros [= ? ?]. congruence.
Qed.

(** A literal without newline is found before a newline only if it is
    found without what follows the newline. *)
Lemma strip_prefix_line lit a b :
  Forall (λ c, c ≠ newline) (String.list_ascii_of_string lit) →
  strip_prefix lit (a +:+ String newline b) =
  (λ post, post +:+ String newline b) <$> strip_prefix lit a.
Proof.
  intros Hlit. revert a.
  induction lit as [|c lit IH]; intros a; [done|].
  simpl in Hlit. apply Forall_cons in Hlit as [Hc Hlit].
  destruct a as [|d a].
  - rewrite append_empty. simpl. by destruct (Ascii.eqb_spec c newline).
  - rewrite append_String. simpl.
    destruct (Ascii.eqb c d); [by apply IH|done].
Qed.

Lemma lastChar_app prev pre c : lastChar prev (pre +:+ String c "") = Some c.
Proof.
  revert prev. induction pre as [|d pre IH]; intros prev; [done|].
  rewrite append_String. simpl. apply IH.
Qed.

Lemma lastChar_snoc prev d pre :
  ∃ pre' c, String d pre = pre' +:+ String c "" ∧ lastChar prev (String d pre) = Some c.
Proof.
  revert prev d. induction pre as [|d' pre IH]; intros prev d.
  - by exists "", d.
  - destruct (IH (Some d) d') as (pre' & c & Heq & Hlast).
    exists (String d pre'), c. rewrite append_String, <- Heq. done.
Qed.

Lemma lineStartb_lastChar pre :
  lineStartb (lastChar None pre) = true ↔ lineStart pre.
Proof.
  unfold lineStart. destruct pre as [|d pre].
  - split; [by left|done].
  - destruct (lastChar_snoc None d pre) as (pre' & c & Heq & Hlast).
    rewrite Hlast, Heq. simpl. split.
    + intros ->%Ascii.eqb_eq. right. by exists pre'.
    + intros [Hnil|[pre'' Heq']].
      * by destruct pre'.
      * apply (f_equal (lastChar None)) in Heq'.
        rewrite !lastChar_app in Heq'. injection Heq' as ->.
        apply Ascii.eqb_refl.
Qed.

Lemma commandEndb_true post : commandEndb post = true ↔ commandEnd post.
Proof.
  unfold commandEnd. destruct post as [|c post]; simpl.
  - split; [by left|done].
  - rewrite bool_decide_eq_true. split.
    + intros Hc. right. by exists c, post.
    + intros [?|(c' & post' & [= -> ->] & Hc)]; done.
Qed.

Lemma commandEndb_line a b :
  commandEndb (a +:+ String newline b) = commandEndb a.
Proof. by destruct a. Qed.

Lemma tailOkb_line a b : tailOkb (a +:+ String newline b) = tailOkb a.
Proof.
  unfold tailOkb. rewrite commandEndb_line. f_equal.
  rewrite strip_prefix_line by (repeat constructor; done).
  destruct (strip_prefix "," a); [apply commandEndb_line|done].
Qed.

(** [matchesHere] through the operators. *)
Lemma matchesHere_Concat r1 r2 here :
  matchesHere (Concat r1 r2) here = existsb (matchesHere r2) (ends r1 here).
Proof.
  unfold matchesHere. simpl.
  induction (ends r1 here) as [|there l IH]; [done|]. csimpl.
  destruct (ends r2 there); simpl; [apply IH|done].
Qed.

Lemma matchesHere_Star r here : matchesHere (Star r) here = true.
Proof. unfold matchesHere. simpl. by destruct (String.length here.2). Qed.

Lemma matchesHere_Alternate r1 r2 here :
  matchesHere (Alternate r1 r2) here =
  matchesHere r1 here || matchesHere r2 here.
Proof.
  unfold matchesHere. simpl. by destruct (ends r1 here), (ends r2 here).
Qed.

(** What may follow the literal and the optional comma. *)
Lemma matchesHere_end prev post :
  matchesHere
    (Alternate EndLine (Concat (CharClass whitespace) (Star AnyCharNotNL)))
    (prev, post) = commandEndb post.
Proof.
  rewrite matchesHere_Alternate, matchesHere_Concat.
  destruct post as [|c post]; [done|].
  unfold matchesHere at 1. cbn [ends fst snd commandEndb].
  destruct (bool_decide (c ∈ whitespace)) eqn:Hc; cbn [existsb].
  - rewrite matchesHere_Star. by destruct (Ascii.eqb c newline).
  - destruct (Ascii.eqb_spec c newline) as [->|_]; [|done].
    by vm_compute in Hc.
Qed.

(** The pattern matches at a place exactly when the place starts a line
    and the text there is ["/test all"], an optional comma, and then
    nothing or white space. *)
Lemma matchesHere_TestAllRe prev s :
  matchesHere TestAllRe (prev, s) =
  lineStartb prev &&
  match strip_prefix "/test all" s with
  | Some post => tailOkb post
  | None => false
  end.
Proof.
  unfold TestAllRe. rewrite matchesHere_Concat.
  assert (Hrest : ∀ prev',
    matchesHere
      (Concat (Literal "/test all")
         (Concat (Quest (Literal ","))
            (Alternate EndLine
               (Concat (CharClass whitespace) (Star AnyCharNotNL)))))
      (prev', s) =
    match strip_prefix "/test all" s with
    | Some post => tailOkb post
    | None => false
    end).
  { intros prev'. rewrite matchesHere_Concat. cbn [ends fst snd].
    destruct (strip_prefix "/test all" s) as [post|]; [|done].
    cbn [existsb]. rewrite orb_false_r, matchesHere_Concat.
    cbn [ends fst snd]. unfold tailOkb.
    destruct (strip_prefix "," post) as [post'|]; cbn [app existsb].
    - by rewrite !matchesHere_end, orb_false_r.
    - by rewrite matchesHere_end, orb_false_r. }
  cbn [ends fst]. destruct prev as [c|]; cbn [lineStartb].
  - destruct (Ascii.eqb c newline); [|done].
    cbn [existsb]. by rewrite Hrest, orb_false_r.
  - cbn [existsb]. by rewrite Hrest, orb_false_r.
Qed.

Lemma matchesHere_TestAllRe_line prev a b :
  matchesHere TestAllRe (prev, a +:+ String newline b) =
  matchesHere TestAllRe (prev, a).
Proof.
  rewrite !matchesHere_TestAllRe. f_equal.
  rewrite strip_prefix_line by (repeat constructor; done).
  destruct (strip_prefix "/test all" a); [apply tailOkb_line|done].
Qed.

(** A search succeeds exactly when the pattern matches at some place of
    the text. *)
Lemma search_true r prev s :
  search r prev s = true ↔
  ∃ pre post, s = pre +:+ post ∧ matchesHere r (lastChar prev pre, post) = true.
Proof.
  revert prev. induction s as [|c s IH]; intros prev; simpl.
  - rewrite orb_false_r. split.
    + intros H. by exists "", "".
    + intros (pre & post & Heq & H). by destruct pre, post.
  - rewrite orb_true_iff, IH. split.
    + intros [H|(pre & post & -> & H)].
      * by exists "", (String c s).
      * by exists (String c pre), post.
    + intros (pre & post & Heq & H). destruct pre as [|d pre].
      * left. rewrite append_empty in Heq. by subst post.
      * right. rewrite append_String in Heq. injection Heq as <- ->.
        by exists pre, post.
Qed.

(** X15: [TestAllRe] matches a comment body exactly when some line of it
    starts with ["/test all"], followed, after an optional comma, by the
    end of the body or by a white space character (a newline included):
    the command is recognised at the start of a line only, and not when
    other text is glued to it. *)
Theorem TestAllRe_MatchString body :
  MatchString TestAllRe body = true ↔
  ∃ pre post,
    body = pre +:+ "/test all" +:+ post ∧
    lineStart pre ∧
    (commandEnd post ∨ ∃ post', post = "," +:+ post' ∧ commandEnd post').
Proof.
  unfold MatchString. rewrite search_true. split.
  - intros (pre & rest & -> & H). rewrite matchesHere_TestAllRe in H.
    apply andb_true_iff in H as [Hstart H].
    destruct (strip_prefix "/test all" rest) as [post|] eqn:Hlit; [|done].
    apply strip_prefix_Some in Hlit as ->.
    exists pre, post. split; [done|]. split; [by apply lineStartb_lastChar|].
    unfold tailOkb in H. apply orb_true_iff in H as [H|H].
    + right. destruct (strip_prefix "," post) as [post'|] eqn:Hc; [|done].
      apply strip_prefix_Some in Hc as ->. exists post'.
      split; [done|]. by apply commandEndb_true.
    + left. by apply commandEndb_true.
  - intros (pre & post & -> & Hstart & Hend).
    exists pre, ("/test all" +:+ post). split; [done|].
    rewrite matchesHere_TestAllRe. apply andb_true_iff.
    split; [by apply lineStartb_lastChar|].
    assert (strip_prefix "/test all" ("/test all" +:+ post) = Some post) as ->
      by by apply strip_prefix_Some.
    unfold tailOkb. apply orb_true_iff.
    destruct Hend as [Hend|(post' & -> & Hend)].
    + right. by apply commandEndb_true.
    + left.
      assert (strip_prefix "," ("," +:+ post') = Some post') as ->
        by by apply strip_prefix_Some.
      by apply commandEndb_true.
Qed.

(** X16: [TestAllRe] reads a comment body line by line: a body made of
    two parts joined by a newline matches exactly when one of the parts
    does. *)
Theorem TestAllRe_lines a b :
  MatchString TestAllRe (a +:+ String newline b) =
  MatchString TestAllRe a || MatchString TestAllRe b.
Proof.
  unfold MatchString.
  assert (Hstart : ∀ s, search TestAllRe (Some newline) s = search TestAllRe None s).
  { intros s. destruct s; cbn [search]; by rewrite !matchesHere_TestAllRe. }
  generalize (@None Ascii.ascii) at 1 2 as prev. revert b.
  induction a as [|c a IH]; intros b prev.
  - pose proof (matchesHere_TestAllRe_line prev "" b) as Hline.
    rewrite append_empty in Hline |- *.
    cbn [search]. by rewrite Hline, Hstart, orb_false_r.
  - pose proof (matchesHere_TestAllRe_line prev (String c a) b) as Hline.
    rewrite append_String in Hline |- *.
    cbn [search]. by rewrite Hline, IH, orb_assoc.
Qed.
End pattern.

(** ** [FilterPresubmits] on any value of [logger] *)

Section any_logger.
Context {Presubmit ChangedFilesProvider error : Type}.
Context `{!PresubmitAPI Presubmit ChangedFilesProvider error}.
Context {Entry1 Entry2 : Type}.
Context `{!EntryAPI Entry1} `{!EntryLogger Entry1}.
Context `{!EntryAPI Entry2} `{!EntryLogger Entry2}.
Variable filter : Filter Presubmit.
Variable changes : ChangedFilesProvider.
Variable branch : string.

Local Abbreviation matched := (matched filter).
Local Abbreviation fails := (fails filter changes branch).
Local Abbreviation runCondition := (runCondition filter changes branch).

(** On an entry with a [Logger] the call is a run of [FilterPresubmits]. *)
Lemma call_logs {Entry} `{!EntryAPI Entry} `{!EntryLogger Entry}
    (presubmits : list Presubmit) (entry : Entry) :
  hasLogger entry = true →
  callFilterPresubmits filter changes branch presubmits (Some entry) =
  (Returns (result (FilterPresubmits filter changes branch presubmits entry)),
   trace (FilterPresubmits filter changes branch presubmits entry)).
Proof.
  intros Hlog. unfold callFilterPresubmits, FilterPresubmits. rewrite Hlog.
  destruct (rangePresubmits _ _ _ _ _) as [[vars|err] t]; done.
Qed.

(** No run condition fails and the logger cannot log: the call panics,
    after the [ShouldRun] calls of all matched jobs and without a log
    record. *)
Lemma call_panics {Entry} `{!EntryAPI Entry} `{!EntryLogger Entry}
    (presubmits : list Presubmit) (logger : option Entry) :
  logs logger = false →
  Forall (λ p, fails p = false) presubmits →
  callFilterPresubmits filter changes branch presubmits logger =
  (Panics,
   @callOf _ _ Entry filter changes branch
     <$> base.filter (λ p, matched p = true) presubmits).
Proof.
  intros Hlog Hok. unfold callFilterPresubmits.
  rewrite <- (app_nil_r presubmits) at 1.
  rewrite range_prefix by done. simpl.
  unfold mbind, Eff_bind, mret, Eff_ret, result, trace. simpl.
  destruct logger as [entry|]; simpl in Hlog; [rewrite Hlog|];
    by rewrite !app_nil_r.
Qed.

(** A run condition fails: the call returns the error, whatever the
    logger is. *)
Lemma call_err {Entry} `{!EntryAPI Entry} `{!EntryLogger Entry}
    pre q post e (logger : option Entry) :
  Forall (λ p, fails p = false) pre →
  matched q = true → (runCondition q).2 = Some e →
  callFilterPresubmits filter changes branch (pre ++ q :: post) logger =
  (Returns ([], [], Some e),
   (@callOf _ _ Entry filter changes branch
      <$> base.filter (λ p, matched p = true) pre)
   ++ [callOf filter changes branch q]).
Proof.
  intros Hpre Hm He. unfold callFilterPresubmits.
  rewrite range_prefix by done.
  rewrite (range_error _ _ _ _ _ _ e) by done.
  unfold mbind, Eff_bind, mret, Eff_ret, result, trace. simpl.
  by rewrite !app_nil_r.
Qed.

(** C8 (as amended): the logger decides neither the results nor the
    control flow of [FilterPresubmits] as long as its log call returns.
    For any two loggers that log (non-nil entries with a [Logger]), of any
    two implementations of the logging interface, and for any two logger
    values at all when the run condition of some matched job is an error,
    the calls on the same filter, change provider, branch and jobs end
    the same way, with the same two lists and the same error, and make
    the same [ShouldRun] calls in the same order. *)
Theorem FilterPresubmits_logger_irrelevant
    (presubmits : list Presubmit)
    (logger1 : option Entry1) (logger2 : option Entry2) :
  (logs logger1 = true ∧ logs logger2 = true) ∨
  (∃ p, p ∈ presubmits ∧ matched p = true ∧ is_Some (runCondition p).2) →
  result (callFilterPresubmits filter changes branch presubmits logger1) =
  result (callFilterPresubmits filter changes branch presubmits logger2) ∧
  omap shouldRunArgs
    (trace (callFilterPresubmits filter changes branch presubmits logger1)) =
  omap shouldRunArgs
    (trace (callFilterPresubmits filter changes branch presubmits logger2)).
Proof.
  intros Hcase.
  destruct (first_failure_or_none filter changes branch presubmits)
    as [Hok|(pre & q & post & -> & Hpre & Hq)].
  - destruct Hcase as [[Hlog1 Hlog2]|(p & Hin & Hm & [e He])].
    + destruct logger1 as [entry1|], logger2 as [entry2|]; try done.
      simpl in Hlog1, Hlog2. rewrite !call_logs by done.
      unfold result at 1 3, trace at 1 3. simpl.
      destruct (FilterPresubmits_logging_loggers filter changes branch
                  presubmits entry1 entry2) as [Hres Hcalls].
      by rewrite Hres, Hcalls.
    + rewrite Forall_forall in Hok.
      pose proof (fails_false_evaluated _ _ _ _ (Hok p Hin) Hm). congruence.
  - apply fails_true_error in Hq as [Hmq [e He]].
    rewrite !(call_err _ _ _ e) by done.
    unfold result, trace. simpl. split; [done|].
    by rewrite !omap_app, !shouldRunArgs_callOf.
Qed.

(** X7: when the filter matches no job of the input, and so also on the
    empty input, the call makes no [ShouldRun] call, whatever [ShouldRun]
    would answer.  With a logger that logs it returns two empty lists and
    a nil error and logs the counts [len(presubmits)], 0 and 0 with empty
    name lists; with the nil logger or an entry without a [Logger] it
    panics at the log call instead of returning. *)
Theorem FilterPresubmits_nothing_matched
    (presubmits : list Presubmit) (logger : option Entry1) :
  Forall (λ p, matched p = false) presubmits →
  callFilterPresubmits filter changes branch presubmits logger =
  match logger with
  | Some entry =>
      if hasLogger entry then
        (Returns ([], [], None),
         [DebugfCall
            (WithFields entry (<["to-trigger" := []]> (<["to-skip" := []]> ∅)))
            "Filtered %d jobs, found %d to trigger and %d to skip."
            [length presubmits; 0; 0]])
      else (Panics, [])
  | None => (Panics, [])
  end.
Proof.
  intros Hnone.
  assert (Hok : Forall (λ p, fails p = false) presubmits).
  { eapply Forall_impl; [exact Hnone|]. intros p Hp. simpl in Hp.
    unfold_fails. by rewrite Hp. }
  assert (Hcalls : base.filter (λ p, matched p = true) presubmits = []).
  { apply filter_none. eapply Forall_impl; [exact Hnone|].
    intros p Hp Hm. simpl in Hp. congruence. }
  destruct logger as [entry|]; [destruct (hasLogger entry) eqn:Hlog|].
  - rewrite call_logs by done.
    by rewrite FilterPresubmits_nothing_matched_logged.
  - rewrite call_panics by done. by rewrite Hcalls.
  - rewrite call_panics by done. by rewrite Hcalls.
Qed.
End any_logger.

(** ** Further concrete runs on the fixture *)

Section more_runs.
Import fixture.

Local Abbreviation run filter presubmits :=
  (FilterPresubmits filter () "main" presubmits (∅ : Fields)).
Local Abbreviation jobs := [unit_tests; bar; docs].

(** A run of "/test all" without error: all calls are made. *)
Lemma FilterPresubmits_call_protocol_witness :
  (result (run TestAllFilter jobs)).2 = None ∧
  omap shouldRunArgs (trace (run TestAllFilter jobs)) =
  (λ p, (p, "main", (), forcedToRun (TestAllFilter p),
         defaultBehavior (TestAllFilter p)))
    <$> base.filter (λ p, matched TestAllFilter p = true) jobs.
Proof.
  split; [reflexivity|].
  apply (proj2 (FilterPresubmits_call_protocol TestAllFilter () "main" jobs ∅)).
  reflexivity.
Defined.

(** The same run: the record that is logged. *)
Lemma FilterPresubmits_log_record_witness :
  (result (run TestAllFilter jobs)).2 = None ∧
  trace (run TestAllFilter jobs) =
  (callOf TestAllFilter () "main"
     <$> base.filter (λ p, matched TestAllFilter p = true) jobs) ++
  [DebugfCall
     (WithFields ∅
        (<["to-trigger" := Name <$> (result (run TestAllFilter jobs)).1.1]>
           (<["to-skip" := Name <$> (result (run TestAllFilter jobs)).1.2]> ∅)))
     "Filtered %d jobs, found %d to trigger and %d to skip."
     [length jobs;
      length (result (run TestAllFilter jobs)).1.1;
      length (result (run TestAllFilter jobs)).1.2]].
Proof.
  split; [reflexivity|].
  apply (FilterPresubmits_log_record TestAllFilter () "main" jobs ∅).
  reflexivity.
Defined.

(** The same run, filtered again. *)
Lemma FilterPresubmits_refilter_witness :
  (result (run TestAllFilter jobs)).2 = None ∧
  result (run TestAllFilter (result (run TestAllFilter jobs)).1.1)
  = ((result (run TestAllFilter jobs)).1.1, [], None) ∧
  result (run TestAllFilter (result (run TestAllFilter jobs)).1.2)
  = ([], (result (run TestAllFilter jobs)).1.2, None).
Proof.
  split; [reflexivity|].
  apply (FilterPresubmits_refilter TestAllFilter () "main" jobs ∅ ∅).
  reflexivity.
Defined.

(** A comment that triggers none of the jobs, one of which is broken, on
    a logger that logs. *)
Lemma FilterPresubmits_nothing_matched_witness :
  Forall (λ p, matched (CommandFilter "/test nothing") p = false) [broken; foo] ∧
  callFilterPresubmits (CommandFilter "/test nothing") () "main" [broken; foo]
    (Some stdEntry) =
  (Returns ([], [], None),
   [DebugfCall
      (WithFields stdEntry (<["to-trigger" := []]> (<["to-skip" := []]> ∅)))
      "Filtered %d jobs, found %d to trigger and %d to skip." [2; 0; 0]]).
Proof.
  assert (Hnone : Forall (λ p, matched (CommandFilter "/test nothing") p = false)
                    [broken; foo])
    by (repeat constructor; vm_compute; reflexivity).
  split; [exact Hnone|].
  exact (FilterPresubmits_nothing_matched (CommandFilter "/test nothing") ()
           "main" [broken; foo] (Some stdEntry) Hnone).
Defined.

(** What the call does on one always-run job with a logger that logs,
    with the nil logger and with the zero entry. *)
Example nil_logger_panics :
  result (callFilterPresubmits TestAllFilter () "main" [unit_tests] (Some stdEntry))
  = Returns ([unit_tests], [], None) ∧
  result (callFilterPresubmits TestAllFilter () "main" [unit_tests] (@None entry))
  = Panics ∧
  result (callFilterPresubmits TestAllFilter () "main" [unit_tests] (Some zeroEntry))
  = Panics.
Proof. by repeat split. Qed.

(** C8, as stated, fails: on one always-run job the call returns with a
    logger that logs and panics with the nil logger. *)
Lemma FilterPresubmits_logger_matters :
  ¬ (∀ logger1 logger2 : option entry,
       result (callFilterPresubmits TestAllFilter () "main" [unit_tests] logger1) =
       result (callFilterPresubmits TestAllFilter () "main" [unit_tests] logger2)).
Proof.
  intros Hsame. specialize (Hsame (Some stdEntry) None).
  vm_compute in Hsame. discriminate.
Qed.

(** Two loggers that log, with different fields, over jobs that trigger,
    are skipped and are not matched. *)
Lemma FilterPresubmits_logger_irrelevant_witness :
  ((logs (Some stdEntry) = true ∧
    logs (Some (WithFields stdEntry {["plugin" := ["trigger"]]})) = true) ∨
   (∃ p, p ∈ jobs ∧ matched TestAllFilter p = true ∧
         is_Some (runCondition TestAllFilter () "main" p).2)) ∧
  result (callFilterPresubmits TestAllFilter () "main" jobs (Some stdEntry)) =
  result (callFilterPresubmits TestAllFilter () "main" jobs
            (Some (WithFields stdEntry {["plugin" := ["trigger"]]}))) ∧
  omap shouldRunArgs
    (trace (callFilterPresubmits TestAllFilter () "main" jobs (Some stdEntry))) =
  omap shouldRunArgs
    (trace (callFilterPresubmits TestAllFilter () "main" jobs
              (Some (WithFields stdEntry {["plugin" := ["trigger"]]})))).
Proof.
  assert (Hlogs : logs (Some stdEntry) = true ∧
                  logs (Some (WithFields stdEntry {["plugin" := ["trigger"]]})) = true)
    by (split; reflexivity).
  split; [by left|].
  apply (FilterPresubmits_logger_irrelevant TestAllFilter () "main" jobs
           (Some stdEntry)
           (Some (WithFields stdEntry {["plugin" := ["trigger"]]}))).
  by left.
Defined.

(** The command filter and its aggregate differ on [bar], which neither
    matches, and yet run alike. *)
Lemma FilterPresubmits_filter_ext_witness :
  (CommandFilter "/test foo" bar ≠ AggregateFilter [CommandFilter "/test foo"] bar) ∧
  run (CommandFilter "/test foo") [foo; bar] =
  run (AggregateFilter [CommandFilter "/test foo"]) [foo; bar].
Proof.
  split; [vm_compute; discriminate|].
  apply (FilterPresubmits_filter_ext (CommandFilter "/test foo")
           (AggregateFilter [CommandFilter "/test foo"]) () "main" [foo; bar] ∅).
  intros p [->|[->|[]%elem_of_nil]%elem_of_cons]%elem_of_cons.
  - left. vm_compute. reflexivity.
  - right. vm_compute. split; reflexivity.
Defined.

(** A "/test foo" comment over three jobs. *)
Lemma FilterPresubmits_CommandFilter_witness :
  (result (run (CommandFilter "/test foo") [unit_tests; foo; bar])).2 = None ∧
  (result (run (CommandFilter "/test foo") [unit_tests; foo; bar])).1
  = (base.filter
       (λ p, TriggerMatches p "/test foo" = true ∧
             (ShouldRun p "main" () true true).1 = true) [unit_tests; foo; bar],
     base.filter
       (λ p, TriggerMatches p "/test foo" = true ∧
             (ShouldRun p "main" () true true).1 = false) [unit_tests; foo; bar]).
Proof.
  split; [vm_compute; reflexivity|].
  apply (proj2 (FilterPresubmits_CommandFilter "/test foo" () "main"
                  [unit_tests; foo; bar] ∅)).
  vm_compute. reflexivity.
Defined.

(** The pattern on a comment with the command on its second line. *)
Example TestAllRe_second_line :
  MatchString TestAllRe ("thanks!" +:+ String newline "/test all, please") = true ∧
  MatchString TestAllRe "please /test all" = false ∧
  MatchString TestAllRe "/test all-the-things" = false.
Proof. by vm_compute. Qed.
End more_runs.
